(** * ArtyVoiceBot Python backend: webhook intake and event query

    A shallow embedding of [python-backend-example/main.py]: the two
    pydantic webhook models, the two module-level event lists, and the
    handlers [receive_status], [receive_transcription], [get_events],
    [clear_events] and [health].

    The handlers are [async def] bodies without any [await], so each one
    runs to completion on the event loop; they are modelled as
    transitions of a sequential state monad over the module's globals,
    the logger output and the wall clock. *)

From Stdlib Require Import ZArith NArith List String Ascii Bool Lia.
From Stdlib Require Import DecimalString.
From stdpp Require Import base option list gmap strings.

Local Open Scope string_scope.
Local Set Warnings "-register-all".

(** ** Python [datetime] values and [isoformat] *)

(** A [datetime.datetime] object. [tzinfo] is the UTC offset in minutes
    of an aware value and [None] for a naive one ([datetime.utcnow()]
    returns naive values). *)
Record datetime := mk_datetime {
  year : N;
  month : N;
  day : N;
  hour : N;
  minute : N;
  second : N;
  microsecond : N;
  tzinfo : option Z
}.

Definition is_leap (y : N) : bool :=
  ((y mod 4 =? 0) && negb (y mod 100 =? 0) || (y mod 400 =? 0))%N.

Definition days_in_month (y m : N) : N :=
  (if m =? 2 then (if is_leap y then 29 else 28)
   else if (m =? 4) || (m =? 6) || (m =? 9) || (m =? 11) then 30
   else 31)%N.

(** The ranges the [datetime] constructor enforces (MINYEAR = 1,
    MAXYEAR = 9999, offsets strictly within one day). *)
Definition valid_datetime (d : datetime) : bool :=
  ((1 <=? year d) && (year d <=? 9999) &&
   (1 <=? month d) && (month d <=? 12) &&
   (1 <=? day d) && (day d <=? days_in_month (year d) (month d)) &&
   (hour d <? 24) && (minute d <? 60) && (second d <? 60) &&
   (microsecond d <? 1000000))%N &&
  match tzinfo d with
  | None => true
  | Some off => (-1440 <? off)%Z && (off <? 1440)%Z
  end.

Definition is_naive (d : datetime) : bool :=
  match tzinfo d with None => true | Some _ => false end.

Definition digit (d : N) : ascii := ascii_of_N (48 + d mod 10).

(** [zfill w n]: the [w] low decimal digits of [n], zero padded on the
    left (["%0wd" % n] for [n < 10 ^ w]). *)
Fixpoint zfill (w : nat) (n : N) : string :=
  match w with
  | O => ""
  | S w' => zfill w' (n / 10) ++ String (digit n) ""
  end.

Definition format_offset (off : Z) : string :=
  let m := Z.to_N (Z.abs off) in
  (if (off <? 0)%Z then "-" else "+") ++
  zfill 2 (m / 60) ++ ":" ++ zfill 2 (m mod 60).

(** [datetime.isoformat()]: [YYYY-MM-DDTHH:MM:SS], then [.ffffff] when
    the microsecond is not zero, then the UTC offset of an aware value. *)
Definition isoformat (d : datetime) : string :=
  zfill 4 (year d) ++ "-" ++ zfill 2 (month d) ++ "-" ++ zfill 2 (day d) ++
  "T" ++
  zfill 2 (hour d) ++ ":" ++ zfill 2 (minute d) ++ ":" ++ zfill 2 (second d) ++
  (if (microsecond d =? 0)%N then "" else "." ++ zfill 6 (microsecond d)) ++
  match tzinfo d with
  | None => ""
  | Some off => format_offset off
  end.

(** Lexicographic combination of two comparisons. *)
Definition lexico (c d : comparison) : comparison :=
  match c with Eq => d | Lt => Lt | Gt => Gt end.

(** Chronological comparison of two naive values: lexicographic on the
    fields, as [datetime.__lt__] does for two naive values. *)
Definition datetime_compare (a b : datetime) : comparison :=
  lexico (year a ?= year b)%N
  (lexico (month a ?= month b)%N
  (lexico (day a ?= day b)%N
  (lexico (hour a ?= hour b)%N
  (lexico (minute a ?= minute b)%N
  (lexico (second a ?= second b)%N
          (microsecond a ?= microsecond b)%N))))).

Definition datetime_le (a b : datetime) : Prop := datetime_compare a b <> Gt.

(** ** JSON request bodies and pydantic field validation *)

(** A decoded JSON value ([json.loads]).  A non-integral number is kept
    as mantissa and decimal exponent. *)
Inductive json :=
| JNull
| JBool (b : bool)
| JInt (z : Z)
| JFloat (mantissa exponent : Z)
| JStr (s : string)
| JArr (items : list json)
| JObj (members : list (string * json)).

(** What pydantic does with one field value for the annotations [str],
    [int] and [datetime].  The library is not part of the repository and
    its lax coercions differ between versions (whether [5] is accepted
    for [str], which timestamp spellings parse), so the model is
    parametric in them and fixes only what every version does: a JSON
    string is accepted unchanged for [str], and a JSON integer is
    accepted unchanged for [int], whatever its sign. *)
Class FieldValidators := {
  validate_str : json -> option string;
  validate_int : json -> option Z;
  validate_datetime : json -> option datetime;
  validate_str_JStr : forall s, validate_str (JStr s) = Some s;
  validate_int_JInt : forall z, validate_int (JInt z) = Some z
}.

Inductive ErrorType := missing | type_error.

(** One entry of a pydantic [ValidationError]: the field it is about
    ([loc]) and what is wrong with it. *)
Record ErrorDetail := mk_error { loc : string; type_ : ErrorType }.

Definition ValidationError := list ErrorDetail.

(** A field declared without a default is required: an absent key is a
    [missing] error, a present value the annotation rejects is a type
    error. *)
Definition validate_field {A : Type} (v : json -> option A)
    (name : string) (body : gmap string json) : ValidationError + A :=
  match body !! name with
  | None => inl [mk_error name missing]
  | Some j =>
      match v j with
      | None => inl [mk_error name type_error]
      | Some a => inr a
      end
  end.

Definition errors_of {A : Type} (r : ValidationError + A) : ValidationError :=
  match r with inl e => e | inr _ => [] end.

Module StatusWebhook.
Record t := mk {
  callId : string;
  status : string;
  message : string;
  timestamp : datetime
}.

(** Building the model from a request body: every field is validated,
    in declaration order, and the errors of all of them are collected. *)
Definition validate `{FieldValidators} (body : gmap string json)
    : ValidationError + t :=
  match validate_field validate_str "callId" body,
        validate_field validate_str "status" body,
        validate_field validate_str "message" body,
        validate_field validate_datetime "timestamp" body with
  | inr c, inr s, inr m, inr ts => inr (mk c s m ts)
  | r1, r2, r3, r4 =>
      inl (errors_of r1 ++ errors_of r2 ++ errors_of r3 ++ errors_of r4)%list
  end.

(** The declared fields; none has a default, so all are required. *)
Definition fields : list string :=
  ["callId"; "status"; "message"; "timestamp"].
End StatusWebhook.

Module TranscriptionWebhook.
Record t := mk {
  callId : string;
  audioFilePath : string;
  timestamp : datetime;
  speakerId : string;
  speakerName : string;
  durationMs : Z
}.

Definition validate `{FieldValidators} (body : gmap string json)
    : ValidationError + t :=
  match validate_field validate_str "callId" body,
        validate_field validate_str "audioFilePath" body,
        validate_field validate_datetime "timestamp" body,
        validate_field validate_str "speakerId" body,
        validate_field validate_str "speakerName" body,
        validate_field validate_int "durationMs" body with
  | inr c, inr a, inr ts, inr si, inr sn, inr d => inr (mk c a ts si sn d)
  | r1, r2, r3, r4, r5, r6 =>
      inl (errors_of r1 ++ errors_of r2 ++ errors_of r3 ++
           errors_of r4 ++ errors_of r5 ++ errors_of r6)%list
  end.

Definition fields : list string :=
  ["callId"; "audioFilePath"; "timestamp"; "speakerId"; "speakerName";
   "durationMs"].
End TranscriptionWebhook.

(** ** Stored events *)

(** The dict literal appended by [receive_status]. *)
Module StatusEvent.
Record t := mk {
  callId : string;
  status : string;
  message : string;
  timestamp : string;
  received_at : string
}.
End StatusEvent.

(** The dict literal appended by [receive_transcription]. *)
Module TranscriptionEvent.
Record t := mk {
  callId : string;
  speakerId : string;
  speakerName : string;
  audioFilePath : string;
  durationMs : Z;
  timestamp : string;
  received_at : string
}.
End TranscriptionEvent.

(** ** Process state and the handler monad *)

Inductive Level := INFO | ERROR.

(** One record emitted through the module's [logger]. *)
Record LogRecord := mk_log { levelname : Level; msg : string }.

(** The state a handler can observe or change: the two module-level
    lists, what [logger] has emitted so far, and the wall clock.  The
    clock is the sequence of values the successive calls of
    [datetime.utcnow()] return; [ticks] counts the calls made so far. *)
Record World := mk_world {
  status_events : list StatusEvent.t;
  transcription_events : list TranscriptionEvent.t;
  log : list LogRecord;
  clock : nat -> datetime;
  ticks : nat
}.

Definition M (A : Type) : Type := World -> A * World.

#[global] Instance M_ret : MRet M := fun A a w => (a, w).
#[global] Instance M_bind : MBind M :=
  fun A B k m w => let '(a, w') := m w in k a w'.

Definition emit (r : LogRecord) : M unit := fun w =>
  (tt, mk_world (status_events w) (transcription_events w)
                (log w ++ [r])%list (clock w) (ticks w)).

Definition logger_info (s : string) : M unit := emit (mk_log INFO s).
Definition logger_error (s : string) : M unit := emit (mk_log ERROR s).

(** [datetime.utcnow()] *)
Definition utcnow : M datetime := fun w =>
  (clock w (ticks w),
   mk_world (status_events w) (transcription_events w)
            (log w) (clock w) (S (ticks w))).

(** [status_events.append(e)] *)
Definition status_events_append (e : StatusEvent.t) : M unit := fun w =>
  (tt, mk_world (status_events w ++ [e])%list (transcription_events w)
                (log w) (clock w) (ticks w)).

(** [transcription_events.append(e)] *)
Definition transcription_events_append (e : TranscriptionEvent.t) : M unit :=
  fun w =>
  (tt, mk_world (status_events w) (transcription_events w ++ [e])%list
                (log w) (clock w) (ticks w)).

Definition read {A : Type} (f : World -> A) : M A := fun w => (f w, w).

(** [status_events = []; transcription_events = []] *)
Definition rebind_empty : M unit := fun w =>
  (tt, mk_world [] [] (log w) (clock w) (ticks w)).

(** [str(n)] for a Python [int]. *)
Definition str_of_int (z : Z) : string := NilZero.string_of_int (Z.to_int z).

(** [str(n)] for a list length. *)
Definition str_of_nat (n : nat) : string := str_of_int (Z.of_nat n).

(** [l[-n:]] for [n > 0]: the last [n] items, or all of [l] when it is
    shorter. *)
Definition last_items {A : Type} (n : nat) (l : list A) : list A :=
  drop (length l - n) l.

(** ** Responses *)

Inductive Response :=
| RootInfo
| StatusAck (received : bool) (callId : string)
| TranscriptionAck (received : bool) (callId : string) (message : string)
| EventsByCall (callId : string)
    (status_events : list StatusEvent.t)
    (transcription_events : list TranscriptionEvent.t)
| EventsSummary (total_status_events total_transcription_events : nat)
    (status_events : list StatusEvent.t)
    (transcription_events : list TranscriptionEvent.t)
| Cleared (cleared : bool)
    (status_events_cleared transcription_events_cleared : nat)
| Healthy (timestamp : string)
| Unprocessable (detail : ValidationError).

(** ** The handlers *)

Definition root : M Response := mret RootInfo.

Definition receive_status (webhook : StatusWebhook.t) : M Response :=
  let callId := StatusWebhook.callId webhook in
  let status := StatusWebhook.status webhook in
  let message := StatusWebhook.message webhook in
  logger_info ("📞 Status Update - Call: " ++ callId ++ ", Status: " ++ status);;
  logger_info ("   Message: " ++ message);;
  now ← utcnow;
  status_events_append
    (StatusEvent.mk callId status message
       (isoformat (StatusWebhook.timestamp webhook)) (isoformat now));;
  (if String.eqb status "joined" then
     logger_info ("✅ Bot successfully joined meeting " ++ callId)
   else if String.eqb status "left" then
     logger_info ("👋 Bot left meeting " ++ callId)
   else if String.eqb status "error" then
     logger_error ("❌ Error in call " ++ callId ++ ": " ++ message)
   else mret tt);;
  mret (StatusAck true callId).

Definition receive_transcription (webhook : TranscriptionWebhook.t)
    : M Response :=
  let callId := TranscriptionWebhook.callId webhook in
  let speakerId := TranscriptionWebhook.speakerId webhook in
  let speakerName := TranscriptionWebhook.speakerName webhook in
  let audioFilePath := TranscriptionWebhook.audioFilePath webhook in
  let durationMs := TranscriptionWebhook.durationMs webhook in
  logger_info ("🎤 Audio Captured - Call: " ++ callId);;
  logger_info ("   Speaker: " ++ speakerName ++ " (" ++ speakerId ++ ")");;
  logger_info ("   File: " ++ audioFilePath);;
  logger_info ("   Duration: " ++ str_of_int durationMs ++ "ms");;
  now ← utcnow;
  transcription_events_append
    (TranscriptionEvent.mk callId speakerId speakerName audioFilePath
       durationMs (isoformat (TranscriptionWebhook.timestamp webhook))
       (isoformat now));;
  mret (TranscriptionAck true callId "Audio will be processed").

(** [bool(s)] for a Python [str]: only the empty string is falsy. *)
Definition str_bool (s : string) : bool := negb (String.eqb s "").

(** [call_id: Optional[str] = None]; [if call_id:] is false for [None]
    and for the empty string. *)
Definition get_events (call_id : option string) : M Response :=
  st ← read status_events;
  tr ← read transcription_events;
  let summary :=
    EventsSummary (length st) (length tr)
                  (last_items 10 st) (last_items 10 tr) in
  match call_id with
  | Some c =>
      if str_bool c then
        mret (EventsByCall c
                (filter (fun e => StatusEvent.callId e = c) st)
                (filter (fun e => TranscriptionEvent.callId e = c) tr))
      else mret summary
  | None => mret summary
  end.

Definition clear_events : M Response :=
  count_status ← read (fun w => length (status_events w));
  count_transcription ← read (fun w => length (transcription_events w));
  rebind_empty;;
  logger_info ("🗑️ Cleared " ++ str_of_nat count_status ++
               " status events and " ++ str_of_nat count_transcription ++
               " transcription events");;
  mret (Cleared true count_status count_transcription).

Definition health : M Response :=
  now ← utcnow;
  mret (Healthy (isoformat now)).

(** ** Routing *)

(** A request as the framework hands it over: the decoded JSON object of
    a POST body, the [call_id] query parameter of the events route.  The
    webhook routes are modelled on bodies that are JSON objects; a body
    that is empty, [null], an array or not JSON at all is refused by the
    framework as a whole, before any field is looked at, and is not a
    [Request] here. *)
Inductive Request :=
| GET_root
| POST_status (body : gmap string json)
| POST_transcription (body : gmap string json)
| GET_events (call_id : option string)
| DELETE_events
| GET_health.

Section Routing.
Context `{FieldValidators}.

(** The body is validated against the handler's parameter model
    before the handler is called; on a [ValidationError] the handler
    does not run and the client gets a 422 with the error list. *)
Definition post_status (body : gmap string json) : M Response :=
  match StatusWebhook.validate body with
  | inl e => mret (Unprocessable e)
  | inr webhook => receive_status webhook
  end.

Definition post_transcription (body : gmap string json) : M Response :=
  match TranscriptionWebhook.validate body with
  | inl e => mret (Unprocessable e)
  | inr webhook => receive_transcription webhook
  end.

Definition handle (r : Request) : M Response :=
  match r with
  | GET_root => root
  | POST_status body => post_status body
  | POST_transcription body => post_transcription body
  | GET_events call_id => get_events call_id
  | DELETE_events => clear_events
  | GET_health => health
  end.

(** Serving requests one after the other. *)
Fixpoint serve (rs : list Request) (w : World) : World :=
  match rs with
  | [] => w
  | r :: rs' => serve rs' (snd (handle r w))
  end.
End Routing.

(** The state at process start: both lists empty, nothing logged. *)
Definition startup (clk : nat -> datetime) : World := mk_world [] [] [] clk 0.

(** The worlds a process run can be in. *)
Definition reachable `{FieldValidators} (w : World) : Prop :=
  exists clk rs, w = serve rs (startup clk).

(** ** A concrete validator instance *)

Definition digit_value (c : ascii) : option N :=
  let n := N_of_ascii c in
  if ((48 <=? n) && (n <=? 57))%N then Some (n - 48)%N else None.

Fixpoint read_digits (k : nat) (acc : N) (s : string) : option (N * string) :=
  match k, s with
  | O, _ => Some (acc, s)
  | S k', String c s' =>
      d ← digit_value c; read_digits k' (10 * acc + d)%N s'
  | S _, EmptyString => None
  end.

Definition expect (c : ascii) (s : string) : option string :=
  match s with
  | String c' s' => if Ascii.eqb c c' then Some s' else None
  | EmptyString => None
  end.

(** The timestamp spelling the bot sends and every pydantic version
    parses: [YYYY-MM-DDTHH:MM:SS], naive, or aware in UTC with a
    trailing [Z]. *)
Definition parse_iso8601 (s : string) : option datetime :=
  '(y, s) ← read_digits 4 0 s; s ← expect "-" s;
  '(mo, s) ← read_digits 2 0 s; s ← expect "-" s;
  '(d, s) ← read_digits 2 0 s; s ← expect "T" s;
  '(h, s) ← read_digits 2 0 s; s ← expect ":" s;
  '(mi, s) ← read_digits 2 0 s; s ← expect ":" s;
  '(sec, s) ← read_digits 2 0 s;
  tz ← (if String.eqb s "" then Some None
        else if String.eqb s "Z" then Some (Some 0%Z) else None);
  let dt := mk_datetime y mo d h mi sec 0 tz in
  if valid_datetime dt then Some dt else None.

(** Validation without any lax coercion: only a JSON string for [str],
    only a JSON integer for [int], only an ISO 8601 string for
    [datetime]. *)
Definition strict_str (j : json) : option string :=
  match j with JStr s => Some s | _ => None end.

Definition strict_int (j : json) : option Z :=
  match j with JInt z => Some z | _ => None end.

Definition strict_datetime (j : json) : option datetime :=
  match j with JStr s => parse_iso8601 s | _ => None end.

Definition strict : FieldValidators :=
  Build_FieldValidators strict_str strict_int strict_datetime
    (fun _ => eq_refl) (fun _ => eq_refl).

(** ** Vocabulary of the statements *)

(** The three side-effect hooks of the status handler.  In the code each
    one is a single logger call with its own message. *)
Inductive Hook := bot_joined | finalize_meeting | alert.

(** [s.startswith(p)] *)
Fixpoint startswith (s p : string) {struct p} : bool :=
  match p, s with
  | EmptyString, _ => true
  | String a p', String b s' => Ascii.eqb a b && startswith s' p'
  | String _ _, EmptyString => false
  end.

(** Which hook, if any, a log record is the trace of. *)
Definition hook_of (r : LogRecord) : option Hook :=
  match levelname r with
  | INFO =>
      if startswith (msg r) "✅ Bot successfully joined meeting "
      then Some bot_joined
      else if startswith (msg r) "👋 Bot left meeting "
      then Some finalize_meeting
      else None
  | ERROR =>
      if startswith (msg r) "❌ Error in call " then Some alert else None
  end.

Definition hooks_fired (l : list LogRecord) : list Hook := omap hook_of l.

(** The dict [receive_status] stores for [webhook] when the clock reads
    [now]. *)
Definition status_entry (webhook : StatusWebhook.t) (now : datetime)
    : StatusEvent.t :=
  StatusEvent.mk (StatusWebhook.callId webhook) (StatusWebhook.status webhook)
    (StatusWebhook.message webhook)
    (isoformat (StatusWebhook.timestamp webhook)) (isoformat now).

(** The dict [receive_transcription] stores for [webhook] when the clock
    reads [now]. *)
Definition transcription_entry (webhook : TranscriptionWebhook.t)
    (now : datetime) : TranscriptionEvent.t :=
  TranscriptionEvent.mk (TranscriptionWebhook.callId webhook)
    (TranscriptionWebhook.speakerId webhook)
    (TranscriptionWebhook.speakerName webhook)
    (TranscriptionWebhook.audioFilePath webhook)
    (TranscriptionWebhook.durationMs webhook)
    (isoformat (TranscriptionWebhook.timestamp webhook)) (isoformat now).

(** [a <= b] on Python [str] values: the lexicographic order. *)
Definition str_le (a b : string) : Prop := String.leb a b = true.

(** A list whose elements grow, in the order [R], with their position. *)
Definition ascending {A : Type} (R : A -> A -> Prop) (l : list A) : Prop :=
  forall i j x y, (i < j)%nat -> l !! i = Some x -> l !! j = Some y -> R x y.

(** Delivering a batch of validated status webhooks, oldest first. *)
Definition receive_statuses (ws : list StatusWebhook.t) (w : World) : World :=
  foldl (fun w webhook => snd (receive_status webhook w)) w ws.

(** Delivering a batch of validated transcription webhooks, oldest
    first. *)
Definition receive_transcriptions (ws : list TranscriptionWebhook.t)
    (w : World) : World :=
  foldl (fun w webhook => snd (receive_transcription webhook w)) w ws.

(** The per-call view of [get_events]: the entries of each list whose
    [callId] is [c], in list order. *)
Definition status_of_call (c : string) (l : list StatusEvent.t)
    : list StatusEvent.t :=
  filter (fun e => StatusEvent.callId e = c) l.

Definition transcription_of_call (c : string) (l : list TranscriptionEvent.t)
    : list TranscriptionEvent.t :=
  filter (fun e => TranscriptionEvent.callId e = c) l.

(** What one request does to the two lists and the clock: nothing, one
    append at the current clock reading, or a clear. *)
Inductive step_effect `{FieldValidators} (r : Request) (w w' : World)
    : Prop :=
| effect_none :
    status_events w' = status_events w ->
    transcription_events w' = transcription_events w ->
    ticks w <= ticks w' ->
    step_effect r w w'
| effect_status body webhook :
    r = POST_status body ->
    StatusWebhook.validate body = inr webhook ->
    status_events w' =
      (status_events w ++ [status_entry webhook (clock w (ticks w))])%list ->
    transcription_events w' = transcription_events w ->
    ticks w' = S (ticks w) ->
    step_effect r w w'
| effect_transcription body webhook :
    r = POST_transcription body ->
    TranscriptionWebhook.validate body = inr webhook ->
    status_events w' = status_events w ->
    transcription_events w' =
      (transcription_events w ++
         [transcription_entry webhook (clock w (ticks w))])%list ->
    ticks w' = S (ticks w) ->
    step_effect r w w'
| effect_clear :
    r = DELETE_events ->
    status_events w' = [] ->
    transcription_events w' = [] ->
    ticks w' = ticks w ->
    step_effect r w w'.

(** The readings of [datetime.utcnow()] are naive values in the ranges
    of the type. *)
Definition utc_readings (clk : nat -> datetime) : Prop :=
  forall i, valid_datetime (clk i) = true /\ is_naive (clk i) = true.

(** A wall clock that is never set back between two readings. *)
Definition never_set_back (clk : nat -> datetime) : Prop :=
  forall i j, i <= j -> datetime_le (clk i) (clk j).

(** [l] holds ISO texts of clock readings taken before the [n]-th one,
    and they ascend along the list. *)
Definition stamped (clk : nat -> datetime) (n : nat) (l : list string)
    : Prop :=
  Forall (fun s => exists k, k < n /\ s = isoformat (clk k)) l /\
  ascending str_le l.

(** ** Sample data *)

(** A clock that advances by one microsecond per reading. *)
Definition sample_clock (n : nat) : datetime :=
  mk_datetime 2024 1 1 12 0 0 (N.min (N.of_nat n) 999999) None.

(** A clock that is set back by one second after its first reading. *)
Definition stepped_back_clock (n : nat) : datetime :=
  match n with
  | O => mk_datetime 2024 1 1 12 0 1 0 None
  | S _ => mk_datetime 2024 1 1 12 0 0 0 None
  end.

(** The status payload of the bot joining call [c]. *)
Definition joined_body (c : string) : gmap string json :=
  list_to_map [("callId", JStr c); ("status", JStr "joined");
               ("message", JStr "ok");
               ("timestamp", JStr "2024-01-01T00:00:00Z")].

(** An audio-capture payload of call [c] with duration [d]. *)
Definition audio_body (c : string) (d : Z) : gmap string json :=
  list_to_map [("callId", JStr c); ("audioFilePath", JStr "/audio/1.wav");
               ("timestamp", JStr "2024-01-01T00:00:05Z");
               ("speakerId", JStr "s1"); ("speakerName", JStr "Ann");
               ("durationMs", JInt d)].

Definition new_year : datetime := mk_datetime 2024 1 1 0 0 0 0 (Some 0%Z).

Definition joined_webhook (c : string) : StatusWebhook.t :=
  StatusWebhook.mk c "joined" "ok" new_year.

Definition audio_webhook (c : string) (d : Z) : TranscriptionWebhook.t :=
  TranscriptionWebhook.mk c "/audio/1.wav"
    (mk_datetime 2024 1 1 0 0 5 0 (Some 0%Z)) "s1" "Ann" d.

(** ** Vocabulary of the run-level statements *)

(** The records a transition from [w] to [w'] added to the log. *)
Definition new_records (w w' : World) : list LogRecord :=
  drop (length (log w)) (log w').

(** A status webhook request whose body passes validation. *)
Definition accepted_status `{FieldValidators} (r : Request) : bool :=
  match r with
  | POST_status body =>
      match StatusWebhook.validate body with inr _ => true | inl _ => false end
  | _ => false
  end.

(** A transcription webhook request whose body passes validation. *)
Definition accepted_transcription `{FieldValidators} (r : Request) : bool :=
  match r with
  | POST_transcription body =>
      match TranscriptionWebhook.validate body with
      | inr _ => true
      | inl _ => false
      end
  | _ => false
  end.

(** The requests that store nothing: the three GET routes, and a
    webhook whose body fails validation. *)
Definition stores_nothing `{FieldValidators} (r : Request) : bool :=
  match r with
  | GET_root | GET_events _ | GET_health => true
  | POST_status _ => negb (accepted_status r)
  | POST_transcription _ => negb (accepted_transcription r)
  | DELETE_events => false
  end.

(** * Properties *)

(** ** What each handler does to the world *)

(** Runs the monadic glue of a handler on an explicit world. *)
Ltac run_handler :=
  cbv [mbind mret M_bind M_ret logger_info logger_error emit utcnow
       status_events_append transcription_events_append read rebind_empty];
  cbn [fst snd status_events transcription_events log clock ticks].

Lemma receive_status_world (webhook : StatusWebhook.t) (w : World) :
  exists emitted,
    receive_status webhook w =
      (StatusAck true (StatusWebhook.callId webhook),
       mk_world
         (status_events w ++ [status_entry webhook (clock w (ticks w))])%list
         (transcription_events w) (log w ++ emitted)%list
         (clock w) (S (ticks w))) /\
    hooks_fired emitted =
      if String.eqb (StatusWebhook.status webhook) "joined" then [bot_joined]
      else if String.eqb (StatusWebhook.status webhook) "left"
      then [finalize_meeting]
      else if String.eqb (StatusWebhook.status webhook) "error" then [alert]
      else [].
Proof.
  destruct webhook as [c s m ts]; destruct w as [st tr lg clk n].
  unfold receive_status, status_entry; cbn.
  destruct (String.eqb s "joined"); [|destruct (String.eqb s "left");
    [|destruct (String.eqb s "error")]]; run_handler;
    rewrite <- ?app_assoc; cbn [app];
    (eexists; split; [reflexivity|]); vm_compute; reflexivity.
Qed.

Lemma receive_transcription_world (webhook : TranscriptionWebhook.t)
    (w : World) :
  exists emitted,
    receive_transcription webhook w =
      (TranscriptionAck true (TranscriptionWebhook.callId webhook)
         "Audio will be processed",
       mk_world (status_events w)
         (transcription_events w ++
            [transcription_entry webhook (clock w (ticks w))])%list
         (log w ++ emitted)%list (clock w) (S (ticks w))).
Proof.
  destruct w as [st tr lg clk n].
  unfold receive_transcription, transcription_entry; run_handler.
  rewrite <- !app_assoc; cbn [app]. eexists; reflexivity.
Qed.

Lemma get_events_world (call_id : option string) (w : World) :
  snd (get_events call_id w) = w.
Proof.
  unfold get_events; run_handler.
  destruct call_id as [c|]; [destruct (str_bool c)|]; reflexivity.
Qed.

Lemma get_events_summary (w : World) :
  fst (get_events None w) =
    EventsSummary (length (status_events w)) (length (transcription_events w))
      (last_items 10 (status_events w))
      (last_items 10 (transcription_events w)).
Proof. reflexivity. Qed.

Lemma clear_events_world (w : World) :
  exists emitted,
    clear_events w =
      (Cleared true (length (status_events w))
         (length (transcription_events w)),
       mk_world [] [] (log w ++ emitted)%list (clock w) (ticks w)).
Proof.
  destruct w as [st tr lg clk n]. unfold clear_events; run_handler.
  eexists; reflexivity.
Qed.

Lemma health_world (w : World) :
  snd (health w) =
    mk_world (status_events w) (transcription_events w) (log w) (clock w)
      (S (ticks w)).
Proof. reflexivity. Qed.

Lemma str_bool_true (s : string) : str_bool s = true <-> s <> "".
Proof.
  unfold str_bool. destruct (String.eqb_spec s ""); cbn; split; congruence.
Qed.

Lemma last_items_length {A : Type} (n : nat) (l : list A) :
  length (last_items n l) = Nat.min (length l) n.
Proof. unfold last_items. rewrite length_drop. lia. Qed.

Lemma last_items_suffix {A : Type} (n : nat) (l : list A) :
  (take (length l - n) l ++ last_items n l)%list = l.
Proof. apply take_drop. Qed.

(** ** Hook dispatch of the status handler *)

(** C2: [receive_status] appends the event and returns the
    acknowledgement together with a world whose log already holds the
    trace of the hooks: exactly one bot-joined hook for status
    ["joined"], exactly one finalize-meeting hook for ["left"], exactly
    one alert hook for ["error"], and no hook for any other status. *)
Theorem receive_status_dispatch (webhook : StatusWebhook.t) (w : World) :
  let status := StatusWebhook.status webhook in
  let '(ack, w') := receive_status webhook w in
  ack = StatusAck true (StatusWebhook.callId webhook) /\
  status_events w' =
    (status_events w ++ [status_entry webhook (clock w (ticks w))])%list /\
  exists emitted,
    log w' = (log w ++ emitted)%list /\
    (status = "joined" -> hooks_fired emitted = [bot_joined]) /\
    (status = "left" -> hooks_fired emitted = [finalize_meeting]) /\
    (status = "error" -> hooks_fired emitted = [alert]) /\
    (status <> "joined" -> status <> "left" -> status <> "error" ->
     hooks_fired emitted = []).
Proof.
  intros status.
  destruct (receive_status_world webhook w) as (emitted & -> & Hhooks).
  split; [reflexivity|]. split; [reflexivity|].
  exists emitted. split; [reflexivity|]. fold status in Hhooks.
  repeat split.
  - intros ->. exact Hhooks.
  - intros ->. exact Hhooks.
  - intros ->. exact Hhooks.
  - intros Hj Hl He. rewrite Hhooks.
    destruct (String.eqb_spec status "joined"); [contradiction|].
    destruct (String.eqb_spec status "left"); [contradiction|].
    destruct (String.eqb_spec status "error"); [contradiction|].
    reflexivity.
Qed.

(** ** The recent-events summary *)

Lemma receive_statuses_world (ws : list StatusWebhook.t) (w : World) :
  let w' := receive_statuses ws w in
  status_events w' =
    (status_events w ++
     imap (fun i webhook => status_entry webhook (clock w (ticks w + i))) ws)%list /\
  transcription_events w' = transcription_events w /\
  clock w' = clock w /\
  ticks w' = ticks w + length ws.
Proof.
  revert w. induction ws as [|webhook ws IH]; intros w; cbn.
  - rewrite app_nil_r, Nat.add_0_r. auto.
  - destruct (receive_status_world webhook w) as (emitted & Hrun & _).
    rewrite Hrun; cbn [snd].
    destruct (IH (mk_world
        (status_events w ++ [status_entry webhook (clock w (ticks w))])
        (transcription_events w) (log w ++ emitted) (clock w) (S (ticks w))))
      as (Hst & Htr & Hclk & Hticks).
    cbn [status_events transcription_events clock ticks] in *.
    unfold receive_statuses in *.
    rewrite Hst, Htr, Hclk, Hticks, <- app_assoc, Nat.add_0_r. cbn [app].
    repeat split; try lia.
    do 2 f_equal. apply imap_ext. intros i x _. cbn. do 2 f_equal. lia.
Qed.

Lemma receive_transcriptions_world (ws : list TranscriptionWebhook.t)
    (w : World) :
  let w' := receive_transcriptions ws w in
  transcription_events w' =
    (transcription_events w ++
     imap (fun i webhook =>
             transcription_entry webhook (clock w (ticks w + i))) ws)%list /\
  status_events w' = status_events w /\
  clock w' = clock w /\
  ticks w' = ticks w + length ws.
Proof.
  revert w. induction ws as [|webhook ws IH]; intros w; cbn.
  - rewrite app_nil_r, Nat.add_0_r. auto.
  - destruct (receive_transcription_world webhook w) as (emitted & Hrun).
    rewrite Hrun; cbn [snd].
    destruct (IH (mk_world (status_events w)
        (transcription_events w ++
           [transcription_entry webhook (clock w (ticks w))])
        (log w ++ emitted) (clock w) (S (ticks w))))
      as (Htr & Hst & Hclk & Hticks).
    cbn [status_events transcription_events clock ticks] in *.
    unfold receive_transcriptions in *.
    rewrite Hst, Htr, Hclk, Hticks, <- app_assoc, Nat.add_0_r. cbn [app].
    repeat split; try lia.
    do 2 f_equal. apply imap_ext. intros i x _. cbn. do 2 f_equal. lia.
Qed.

(** C3: after [N] status webhooks and [M] transcription webhooks have
    been received by a fresh process, [get_events()] reports the totals
    [N] and [M] and returns, for each list, its last [min(N, 10)]
    (respectively [min(M, 10)]) entries, oldest first. *)
Theorem recent_summary_after_appends (clk : nat -> datetime)
    (ss : list StatusWebhook.t) (ts : list TranscriptionWebhook.t) :
  let w := receive_transcriptions ts (receive_statuses ss (startup clk)) in
  let arrived_s := imap (fun i webhook => status_entry webhook (clk i)) ss in
  let arrived_t :=
    imap (fun i webhook => transcription_entry webhook (clk (length ss + i)))
         ts in
  exists recent_s recent_t,
    fst (get_events None w) =
      EventsSummary (length ss) (length ts) recent_s recent_t /\
    recent_s = drop (length ss - 10) arrived_s /\
    recent_t = drop (length ts - 10) arrived_t /\
    length recent_s = Nat.min (length ss) 10 /\
    length recent_t = Nat.min (length ts) 10.
Proof.
  intros w arrived_s arrived_t.
  destruct (receive_statuses_world ss (startup clk)) as (Hs & Ht & Hc & Hn).
  destruct (receive_transcriptions_world ts (receive_statuses ss (startup clk)))
    as (Ht' & Hs' & Hc' & Hn').
  cbn [startup status_events transcription_events clock ticks app] in *.
  rewrite Hc, Hn, Ht in Ht'. rewrite Hs in Hs'. cbn [app Nat.add] in Ht', Hs'.
  fold w in Ht', Hs'. fold arrived_s in Hs'. fold arrived_t in Ht'.
  exists (drop (length ss - 10) arrived_s), (drop (length ts - 10) arrived_t).
  rewrite get_events_summary, Hs', Ht'. unfold last_items.
  assert (Hls : length arrived_s = length ss) by apply length_imap.
  assert (Hlt : length arrived_t = length ts) by apply length_imap.
  rewrite !length_drop, Hls, Hlt.
  repeat split; lia.
Qed.

(** ** Clearing *)

(** C4: [clear_events] reports the sizes the two lists had, leaves both
    empty, and a following [get_events()] reports zero totals. *)
Theorem clear_events_counts (w : World) :
  let '(resp, w') := clear_events w in
  resp = Cleared true (length (status_events w))
                      (length (transcription_events w)) /\
  status_events w' = [] /\
  transcription_events w' = [] /\
  fst (get_events None w') = EventsSummary 0 0 [] [].
Proof.
  destruct (clear_events_world w) as (emitted & ->).
  repeat split.
Qed.

(** ** Rejected payloads *)

Lemma validate_field_missing {A : Type} (v : json -> option A)
    (name : string) (body : gmap string json) :
  body !! name = None ->
  validate_field v name body = inl [mk_error name missing].
Proof. intros Hnone. unfold validate_field. rewrite Hnone. reflexivity. Qed.

Lemma status_validate_cases `{FieldValidators} (body : gmap string json) :
  let r1 := validate_field validate_str "callId" body in
  let r2 := validate_field validate_str "status" body in
  let r3 := validate_field validate_str "message" body in
  let r4 := validate_field validate_datetime "timestamp" body in
  match StatusWebhook.validate body with
  | inl detail =>
      detail = (errors_of r1 ++ errors_of r2 ++ errors_of r3 ++ errors_of r4)%list
  | inr webhook =>
      r1 = inr (StatusWebhook.callId webhook) /\
      r2 = inr (StatusWebhook.status webhook) /\
      r3 = inr (StatusWebhook.message webhook) /\
      r4 = inr (StatusWebhook.timestamp webhook)
  end.
Proof.
  intros r1 r2 r3 r4. unfold StatusWebhook.validate.
  fold r1 r2 r3 r4.
  destruct r1, r2, r3, r4; cbn; auto.
Qed.

Lemma transcription_validate_cases `{FieldValidators}
    (body : gmap string json) :
  let r1 := validate_field validate_str "callId" body in
  let r2 := validate_field validate_str "audioFilePath" body in
  let r3 := validate_field validate_datetime "timestamp" body in
  let r4 := validate_field validate_str "speakerId" body in
  let r5 := validate_field validate_str "speakerName" body in
  let r6 := validate_field validate_int "durationMs" body in
  match TranscriptionWebhook.validate body with
  | inl detail =>
      detail = (errors_of r1 ++ errors_of r2 ++ errors_of r3 ++
                errors_of r4 ++ errors_of r5 ++ errors_of r6)%list
  | inr webhook =>
      r1 = inr (TranscriptionWebhook.callId webhook) /\
      r2 = inr (TranscriptionWebhook.audioFilePath webhook) /\
      r3 = inr (TranscriptionWebhook.timestamp webhook) /\
      r4 = inr (TranscriptionWebhook.speakerId webhook) /\
      r5 = inr (TranscriptionWebhook.speakerName webhook) /\
      r6 = inr (TranscriptionWebhook.durationMs webhook)
  end.
Proof.
  intros r1 r2 r3 r4 r5 r6. unfold TranscriptionWebhook.validate.
  fold r1 r2 r3 r4 r5 r6.
  destruct r1, r2, r3, r4, r5, r6; cbn; auto 10.
Qed.

Lemma post_status_missing `{FieldValidators} (body : gmap string json)
    (name : string) (w : World) :
  body !! name = None ->
  name ∈ StatusWebhook.fields ->
  exists detail,
    post_status body w = (Unprocessable detail, w) /\
    mk_error name missing ∈ detail.
Proof.
  intros Hnone Hin.
  pose proof (fun A v => @validate_field_missing A v name body Hnone) as Hm.
  unfold post_status.
  pose proof (status_validate_cases body) as Hcases. cbv zeta in Hcases.
  unfold StatusWebhook.fields in Hin.
  destruct (StatusWebhook.validate body) as [detail|webhook].
  - exists detail. split; [reflexivity|]. subst detail.
    repeat (apply elem_of_cons in Hin as [->|Hin]);
      [ .. | apply elem_of_nil in Hin; contradiction ];
      rewrite Hm; cbn [errors_of];
      rewrite ?elem_of_app, ?elem_of_cons; auto 10.
  - exfalso. destruct Hcases as (H1 & H2 & H3 & H4).
    repeat (apply elem_of_cons in Hin as [->|Hin]);
      [ .. | apply elem_of_nil in Hin; contradiction ];
      rewrite Hm in *; discriminate.
Qed.

Lemma post_transcription_missing `{FieldValidators}
    (body : gmap string json) (name : string) (w : World) :
  body !! name = None ->
  name ∈ TranscriptionWebhook.fields ->
  exists detail,
    post_transcription body w = (Unprocessable detail, w) /\
    mk_error name missing ∈ detail.
Proof.
  intros Hnone Hin.
  pose proof (fun A v => @validate_field_missing A v name body Hnone) as Hm.
  unfold post_transcription.
  pose proof (transcription_validate_cases body) as Hcases.
  cbv zeta in Hcases.
  unfold TranscriptionWebhook.fields in Hin.
  destruct (TranscriptionWebhook.validate body) as [detail|webhook].
  - exists detail. split; [reflexivity|]. subst detail.
    repeat (apply elem_of_cons in Hin as [->|Hin]);
      [ .. | apply elem_of_nil in Hin; contradiction ];
      rewrite Hm; cbn [errors_of];
      rewrite ?elem_of_app, ?elem_of_cons; auto 10.
  - exfalso. destruct Hcases as (H1 & H2 & H3 & H4 & H5 & H6).
    repeat (apply elem_of_cons in Hin as [->|Hin]);
      [ .. | apply elem_of_nil in Hin; contradiction ];
      rewrite Hm in *; discriminate.
Qed.

(** C5: a body that lacks one of the model's fields is answered with
    the validation errors, among them a [missing] error for that field,
    and the world is left as it was: the handler does not run. *)
Theorem missing_field_rejected `{FieldValidators}
    (body : gmap string json) (name : string) (w : World) :
  body !! name = None ->
  (name ∈ StatusWebhook.fields ->
   exists detail,
     post_status body w = (Unprocessable detail, w) /\
     mk_error name missing ∈ detail) /\
  (name ∈ TranscriptionWebhook.fields ->
   exists detail,
     post_transcription body w = (Unprocessable detail, w) /\
     mk_error name missing ∈ detail).
Proof.
  intros Hnone. split; intros Hin.
  - apply post_status_missing; assumption.
  - apply post_transcription_missing; assumption.
Qed.

Lemma missing_field_rejected_witness :
  let body := delete "callId" (joined_body "c1") in
  body !! "callId" = None /\
  exists detail,
    @post_status strict body (startup sample_clock) =
      (Unprocessable detail, startup sample_clock) /\
    mk_error "callId" missing ∈ detail.
Proof.
  intros body.
  assert (Hnone : body !! "callId" = None) by (vm_compute; reflexivity).
  split; [exact Hnone|].
  apply (proj1 (@missing_field_rejected strict body "callId"
                  (startup sample_clock) Hnone)).
  unfold StatusWebhook.fields. apply list_elem_of_here.
Defined.

(** ** The per-call view *)

Lemma get_events_by_call (c : string) (w : World) :
  c <> "" ->
  get_events (Some c) w =
    (EventsByCall c (status_of_call c (status_events w))
                    (transcription_of_call c (transcription_events w)), w).
Proof.
  intros Hc. apply str_bool_true in Hc.
  unfold get_events; run_handler. rewrite Hc. reflexivity.
Qed.

Lemma filter_none {A : Type} (P : A -> Prop) `{forall x, Decision (P x)}
    (l : list A) :
  Forall (fun x => ~ P x) l -> filter P l = [].
Proof.
  induction 1 as [|x l Hx _ IH]; [reflexivity|].
  rewrite filter_cons_False by exact Hx. exact IH.
Qed.

(** C6, for a non-empty [call_id]: [get_events(call_id)] returns exactly
    the entries of each list whose [callId] is the argument, in list
    order, returns two empty lists when nothing matches, and leaves the
    world as it was. *)
Theorem get_events_filters_by_call (c : string) (w : World) :
  c <> "" ->
  exists ss ts,
    get_events (Some c) w = (EventsByCall c ss ts, w) /\
    ss = filter (fun e => StatusEvent.callId e = c) (status_events w) /\
    ts = filter (fun e => TranscriptionEvent.callId e = c)
                (transcription_events w) /\
    sublist ss (status_events w) /\
    sublist ts (transcription_events w) /\
    (forall e, e ∈ ss <-> e ∈ status_events w /\ StatusEvent.callId e = c) /\
    (forall e, e ∈ ts <->
               e ∈ transcription_events w /\ TranscriptionEvent.callId e = c) /\
    (Forall (fun e => StatusEvent.callId e <> c) (status_events w) ->
     ss = []) /\
    (Forall (fun e => TranscriptionEvent.callId e <> c)
            (transcription_events w) -> ts = []).
Proof.
  intros Hc.
  exists (status_of_call c (status_events w)),
         (transcription_of_call c (transcription_events w)).
  split; [apply get_events_by_call, Hc|].
  unfold status_of_call, transcription_of_call.
  split; [reflexivity|]. split; [reflexivity|].
  split; [apply sublist_filter|]. split; [apply sublist_filter|].
  split; [intros e; rewrite list_elem_of_filter; tauto|].
  split; [intros e; rewrite list_elem_of_filter; tauto|].
  split; apply filter_none.
Qed.

Lemma get_events_filters_by_call_witness :
  let w := snd (receive_status (joined_webhook "c1") (startup sample_clock)) in
  "c1" <> "" /\
  exists ss ts,
    get_events (Some "c1") w = (EventsByCall "c1" ss ts, w) /\
    ss = [status_entry (joined_webhook "c1") (sample_clock 0)] /\
    ts = [].
Proof.
  intros w.
  assert (Hc : "c1" <> "") by discriminate.
  split; [exact Hc|].
  destruct (get_events_filters_by_call "c1" w Hc)
    as (ss & ts & Hrun & Hss & Hts & _).
  exists ss, ts. split; [exact Hrun|].
  split; [rewrite Hss | rewrite Hts]; vm_compute; reflexivity.
Defined.

(** The claim C6 as stated, for every [call_id], fails at the empty
    string: with one stored event of call ["c1"], [get_events("")]
    answers with the summary, which holds that event, where the per-call
    view of [""] would hold nothing. *)
Lemma get_events_empty_call_id_not_filtered :
  let w := snd (receive_status (joined_webhook "c1") (startup sample_clock)) in
  fst (get_events (Some "") w) =
    EventsSummary 1 0
      [status_entry (joined_webhook "c1") (sample_clock 0)] [] /\
  fst (get_events (Some "") w) <>
    EventsByCall ""
      (filter (fun e => StatusEvent.callId e = "") (status_events w))
      (filter (fun e => TranscriptionEvent.callId e = "")
              (transcription_events w)).
Proof.
  intros w. split; [vm_compute; reflexivity|].
  vm_compute. discriminate.
Qed.

(** C10: [get_events("")] answers exactly as [get_events()] does: with
    the two totals and, for each list, the window made of its last ten
    entries (all of them when there are fewer), in list order.  The
    per-call view is only ever produced for a non-empty [call_id], so no
    entry stored with an empty [callId] appears in it. *)
Theorem get_events_empty_call_id (w : World) :
  let st := status_events w in
  let tr := transcription_events w in
  let recent_s := drop (length st - 10) st in
  let recent_t := drop (length tr - 10) tr in
  get_events (Some "") w =
    (EventsSummary (length st) (length tr) recent_s recent_t, w) /\
  get_events (Some "") w = get_events None w /\
  length recent_s = Nat.min (length st) 10 /\
  length recent_t = Nat.min (length tr) 10 /\
  (exists older, st = older ++ recent_s)%list /\
  (exists older, tr = older ++ recent_t)%list /\
  forall call_id c ss ts,
    fst (get_events call_id w) = EventsByCall c ss ts ->
    c <> "" /\
    Forall (fun e => StatusEvent.callId e <> "") ss /\
    Forall (fun e => TranscriptionEvent.callId e <> "") ts.
Proof.
  intros st tr recent_s recent_t.
  split; [reflexivity|]. split; [reflexivity|].
  split; [unfold recent_s; rewrite length_drop; lia|].
  split; [unfold recent_t; rewrite length_drop; lia|].
  split; [exists (take (length st - 10) st); symmetry; apply take_drop|].
  split; [exists (take (length tr - 10) tr); symmetry; apply take_drop|].
  intros [c'|] c ss ts; [|discriminate].
  unfold get_events; run_handler.
  destruct (str_bool c') eqn:Hc; [|discriminate].
  apply str_bool_true in Hc. cbn [fst].
  intros [= <- <- <-]. split; [exact Hc|].
  split; apply Forall_forall; intros e He;
    apply list_elem_of_filter in He as [-> _]; exact Hc.
Qed.

(** ** Receiving an event and reading it back *)

Lemma length_append (a b : string) :
  String.length (a ++ b) = String.length a + String.length b.
Proof.
  induction a as [|c a IH]; [reflexivity|].
  change (String c a ++ b) with (String c (a ++ b)).
  cbn [String.length]. now rewrite IH.
Qed.

Lemma zfill_length (w : nat) (n : N) : String.length (zfill w n) = w.
Proof.
  revert n. induction w as [|w IH]; intros n; cbn [zfill]; [reflexivity|].
  rewrite length_append, IH. cbn. lia.
Qed.

Lemma isoformat_length (d : datetime) : 19 <= String.length (isoformat d).
Proof.
  unfold isoformat. rewrite !length_append, !zfill_length. cbn. lia.
Qed.

Lemma isoformat_nonempty (d : datetime) : isoformat d <> "".
Proof.
  intros Hempty. pose proof (isoformat_length d) as Hlen.
  rewrite Hempty in Hlen. cbn in Hlen. lia.
Qed.

(** C1, for a non-empty [callId]: once a valid status (respectively
    transcription) payload has been received, [get_events] with its
    [callId] returns the per-call view whose status (respectively
    transcription) list ends with the stored event; the event carries
    the fields of the payload, and its [received_at] is the ISO text of
    the clock reading taken at intake, which is never empty. *)
Theorem receive_then_get_events `{FieldValidators} (w : World) :
  (forall body webhook,
     StatusWebhook.validate body = inr webhook ->
     StatusWebhook.callId webhook <> "" ->
     let c := StatusWebhook.callId webhook in
     let entry := status_entry webhook (clock w (ticks w)) in
     let '(ack, w1) := post_status body w in
     ack = StatusAck true c /\
     get_events (Some c) w1 =
       (EventsByCall c
          (status_of_call c (status_events w) ++ [entry])%list
          (transcription_of_call c (transcription_events w)), w1) /\
     StatusEvent.received_at entry = isoformat (clock w (ticks w)) /\
     StatusEvent.received_at entry <> "") /\
  (forall body webhook,
     TranscriptionWebhook.validate body = inr webhook ->
     TranscriptionWebhook.callId webhook <> "" ->
     let c := TranscriptionWebhook.callId webhook in
     let entry := transcription_entry webhook (clock w (ticks w)) in
     let '(ack, w1) := post_transcription body w in
     ack = TranscriptionAck true c "Audio will be processed" /\
     get_events (Some c) w1 =
       (EventsByCall c
          (status_of_call c (status_events w))
          (transcription_of_call c (transcription_events w) ++ [entry])%list,
        w1) /\
     TranscriptionEvent.received_at entry = isoformat (clock w (ticks w)) /\
     TranscriptionEvent.received_at entry <> "").
Proof.
  split; intros body webhook Hvalid Hc c entry.
  - unfold post_status. rewrite Hvalid.
    destruct (receive_status_world webhook w) as (emitted & -> & _).
    split; [reflexivity|].
    split; [|split; [reflexivity|apply isoformat_nonempty]].
    rewrite get_events_by_call by exact Hc.
    cbn [status_events transcription_events].
    unfold status_of_call at 1. rewrite filter_app.
    rewrite filter_cons_True by reflexivity. reflexivity.
  - unfold post_transcription. rewrite Hvalid.
    destruct (receive_transcription_world webhook w) as (emitted & ->).
    split; [reflexivity|].
    split; [|split; [reflexivity|apply isoformat_nonempty]].
    rewrite get_events_by_call by exact Hc.
    cbn [status_events transcription_events].
    unfold transcription_of_call at 1. rewrite filter_app.
    rewrite filter_cons_True by reflexivity. reflexivity.
Qed.

Lemma receive_then_get_events_witness :
  let w := startup sample_clock in
  let entry := status_entry (joined_webhook "c1") (sample_clock 0) in
  let w1 := snd (@post_status strict (joined_body "c1") w) in
  let heard := transcription_entry (audio_webhook "c1" 1500) (sample_clock 0) in
  let w2 := snd (@post_transcription strict (audio_body "c1" 1500) w) in
  @StatusWebhook.validate strict (joined_body "c1") =
    inr (joined_webhook "c1") /\
  StatusWebhook.callId (joined_webhook "c1") <> "" /\
  get_events (Some "c1") w1 = (EventsByCall "c1" [entry] [], w1) /\
  StatusEvent.received_at entry = "2024-01-01T12:00:00" /\
  @TranscriptionWebhook.validate strict (audio_body "c1" 1500) =
    inr (audio_webhook "c1" 1500) /\
  TranscriptionWebhook.callId (audio_webhook "c1" 1500) <> "" /\
  get_events (Some "c1") w2 = (EventsByCall "c1" [] [heard], w2).
Proof.
  intros w entry w1 heard w2.
  assert (Hvalid : @StatusWebhook.validate strict (joined_body "c1") =
                   inr (joined_webhook "c1")) by (vm_compute; reflexivity).
  assert (Hc : StatusWebhook.callId (joined_webhook "c1") <> "")
    by discriminate.
  assert (Hvalid' : @TranscriptionWebhook.validate strict
                      (audio_body "c1" 1500) = inr (audio_webhook "c1" 1500))
    by (vm_compute; reflexivity).
  assert (Hc' : TranscriptionWebhook.callId (audio_webhook "c1" 1500) <> "")
    by discriminate.
  destruct (@receive_then_get_events strict w) as [Hstatus Haudio].
  specialize (Hstatus (joined_body "c1") (joined_webhook "c1") Hvalid Hc).
  specialize (Haudio (audio_body "c1" 1500) (audio_webhook "c1" 1500)
                Hvalid' Hc').
  cbv zeta in Hstatus, Haudio. subst w1 w2.
  destruct (@post_status strict (joined_body "c1") w) as [ack w1].
  destruct (@post_transcription strict (audio_body "c1" 1500) w) as [ack' w2].
  destruct Hstatus as (_ & Hget & _ & _). destruct Haudio as (_ & Hget' & _).
  cbn [snd].
  split; [exact Hvalid|]. split; [exact Hc|]. split; [exact Hget|].
  split; [vm_compute; reflexivity|].
  split; [exact Hvalid'|]. split; [exact Hc'|]. exact Hget'.
Defined.

(** The claim C1 as stated, for every valid payload, fails for a payload
    whose [callId] is the empty string: the payload is accepted and
    stored, but [get_events("")] answers with the unfiltered summary,
    here holding the event of call ["c1"] as well, and never with a
    per-call view. *)
Lemma receive_then_get_events_empty_call_id :
  let w := snd (receive_status (joined_webhook "c1") (startup sample_clock)) in
  let '(ack, w1) := @post_status strict (joined_body "") w in
  @StatusWebhook.validate strict (joined_body "") = inr (joined_webhook "") /\
  ack = StatusAck true "" /\
  fst (get_events (Some "") w1) =
    EventsSummary 2 0
      [status_entry (joined_webhook "c1") (sample_clock 0);
       status_entry (joined_webhook "") (sample_clock 1)] [] /\
  forall ss ts, fst (get_events (Some "") w1) <> EventsByCall "" ss ts.
Proof.
  vm_compute. repeat split. intros ss ts. discriminate.
Qed.

(** ** What validation does not check *)

Lemma validate_field_insert_ne {A : Type} (v : json -> option A)
    (name key : string) (j : json) (body : gmap string json) :
  key <> name ->
  validate_field v name (<[key:=j]> body) = validate_field v name body.
Proof.
  intros Hne. unfold validate_field. rewrite lookup_insert_ne by exact Hne.
  reflexivity.
Qed.

Lemma validate_field_insert_eq {A : Type} (v : json -> option A)
    (name : string) (j : json) (a : A) (body : gmap string json) :
  v j = Some a ->
  validate_field v name (<[name:=j]> body) = inr a.
Proof.
  intros Hv. unfold validate_field. rewrite lookup_insert_eq, Hv.
  reflexivity.
Qed.

Lemma transcription_validate_ok `{FieldValidators} (body : gmap string json)
    (c a si sn : string) (ts : datetime) (d : Z) :
  validate_field validate_str "callId" body = inr c ->
  validate_field validate_str "audioFilePath" body = inr a ->
  validate_field validate_datetime "timestamp" body = inr ts ->
  validate_field validate_str "speakerId" body = inr si ->
  validate_field validate_str "speakerName" body = inr sn ->
  validate_field validate_int "durationMs" body = inr d ->
  TranscriptionWebhook.validate body =
    inr (TranscriptionWebhook.mk c a ts si sn d).
Proof.
  intros H1 H2 H3 H4 H5 H6. unfold TranscriptionWebhook.validate.
  rewrite H1, H2, H3, H4, H5, H6. reflexivity.
Qed.

(** C7, as the code has it: [durationMs] must be present and an
    integer, and nothing more.  In a payload whose other fields are
    valid, any JSON integer [z], negative ones included, passes
    validation and is stored unchanged; a payload without [durationMs]
    is rejected with a [missing] error for it and is not stored. *)
Theorem duration_any_integer `{FieldValidators} (body : gmap string json)
    (webhook : TranscriptionWebhook.t) (z : Z) (w : World) :
  TranscriptionWebhook.validate body = inr webhook ->
  let body' := <["durationMs" := JInt z]> body in
  let webhook' :=
    TranscriptionWebhook.mk (TranscriptionWebhook.callId webhook)
      (TranscriptionWebhook.audioFilePath webhook)
      (TranscriptionWebhook.timestamp webhook)
      (TranscriptionWebhook.speakerId webhook)
      (TranscriptionWebhook.speakerName webhook) z in
  let entry := transcription_entry webhook' (clock w (ticks w)) in
  TranscriptionWebhook.validate body' = inr webhook' /\
  fst (post_transcription body' w) =
    TranscriptionAck true (TranscriptionWebhook.callId webhook)
      "Audio will be processed" /\
  transcription_events (snd (post_transcription body' w)) =
    (transcription_events w ++ [entry])%list /\
  TranscriptionEvent.durationMs entry = z /\
  exists detail,
    post_transcription (delete "durationMs" body) w =
      (Unprocessable detail, w) /\
    mk_error "durationMs" missing ∈ detail.
Proof.
  intros Hvalid body' webhook' entry.
  pose proof (transcription_validate_cases body) as Hcases.
  cbv zeta in Hcases. rewrite Hvalid in Hcases.
  destruct Hcases as (H1 & H2 & H3 & H4 & H5 & _).
  assert (Hvalid' : TranscriptionWebhook.validate body' = inr webhook').
  { apply transcription_validate_ok; unfold body';
      try (rewrite validate_field_insert_ne by discriminate; assumption).
    apply validate_field_insert_eq, validate_int_JInt. }
  split; [exact Hvalid'|].
  unfold post_transcription. rewrite Hvalid'.
  destruct (receive_transcription_world webhook' w) as (emitted & ->).
  split; [reflexivity|]. split; [reflexivity|]. split; [reflexivity|].
  apply post_transcription_missing.
  - apply lookup_delete_eq.
  - unfold TranscriptionWebhook.fields.
    rewrite !elem_of_cons. auto 10.
Qed.

Lemma duration_any_integer_witness :
  let w := startup sample_clock in
  let body' := <["durationMs" := JInt (-5)]> (audio_body "c1" 1500) in
  @TranscriptionWebhook.validate strict (audio_body "c1" 1500) =
    inr (audio_webhook "c1" 1500) /\
  @TranscriptionWebhook.validate strict body' =
    inr (audio_webhook "c1" (-5)) /\
  transcription_events (snd (@post_transcription strict body' w)) =
    [transcription_entry (audio_webhook "c1" (-5)) (sample_clock 0)].
Proof.
  intros w body'.
  assert (Hvalid : @TranscriptionWebhook.validate strict
                     (audio_body "c1" 1500) = inr (audio_webhook "c1" 1500))
    by (vm_compute; reflexivity).
  split; [exact Hvalid|].
  destruct (@duration_any_integer strict (audio_body "c1" 1500)
              (audio_webhook "c1" 1500) (-5) w Hvalid)
    as (Hvalid' & _ & Hstored & _).
  split; [exact Hvalid'|exact Hstored].
Defined.

(** The claim C7 as stated fails: a transcription payload whose
    [durationMs] is [-5] is acknowledged, not rejected, and the event
    is stored with [durationMs = -5]. *)
Lemma negative_duration_accepted :
  let '(resp, w') :=
    @post_transcription strict (audio_body "c1" (-5)) (startup sample_clock) in
  resp = TranscriptionAck true "c1" "Audio will be processed" /\
  (forall detail, resp <> Unprocessable detail) /\
  transcription_events w' =
    [transcription_entry (audio_webhook "c1" (-5)) (sample_clock 0)] /\
  (TranscriptionEvent.durationMs
     (transcription_entry (audio_webhook "c1" (-5)) (sample_clock 0)) < 0)%Z.
Proof.
  vm_compute. repeat split. intros detail. discriminate.
Qed.

(** ** Invariants of a process run *)

Lemma handle_effect `{FieldValidators} (r : Request) (w : World) :
  clock (snd (handle r w)) = clock w /\
  step_effect r w (snd (handle r w)).
Proof.
  destruct r as [|body|body|call_id| |]; cbn [handle].
  - split; [reflexivity|]. apply effect_none; reflexivity.
  - unfold post_status.
    destruct (StatusWebhook.validate body) as [detail|webhook] eqn:Hvalid.
    + split; [reflexivity|]. apply effect_none; reflexivity.
    + destruct (receive_status_world webhook w) as (emitted & -> & _).
      split; [reflexivity|].
      eapply effect_status; [reflexivity|exact Hvalid|reflexivity..].
  - unfold post_transcription.
    destruct (TranscriptionWebhook.validate body) as [detail|webhook]
      eqn:Hvalid.
    + split; [reflexivity|]. apply effect_none; reflexivity.
    + destruct (receive_transcription_world webhook w) as (emitted & ->).
      split; [reflexivity|].
      eapply effect_transcription; [reflexivity|exact Hvalid|reflexivity..].
  - rewrite get_events_world. split; [reflexivity|].
    apply effect_none; reflexivity.
  - destruct (clear_events_world w) as (emitted & ->).
    split; [reflexivity|]. apply effect_clear; reflexivity.
  - rewrite health_world. split; [reflexivity|].
    apply effect_none; cbn; auto.
Qed.

(** A property of worlds that holds at the start of [serve] and is kept
    by every request of the list holds at the end. *)
Lemma serve_invariant `{FieldValidators} (I : World -> Prop)
    (rs : list Request) (w : World) :
  I w ->
  (forall r w, r ∈ rs -> I w -> I (snd (handle r w))) ->
  I (serve rs w).
Proof.
  revert w. induction rs as [|r rs IH]; intros w Hw Hstep; cbn [serve].
  - exact Hw.
  - apply IH.
    + apply Hstep; [apply list_elem_of_here|exact Hw].
    + intros r' w' Hin. apply Hstep. apply list_elem_of_further, Hin.
Qed.

(** C8, as the code has it: validation takes any string as [callId],
    the empty one included, and the handlers store it unchanged.  So in
    every state a process run reaches, every stored event has a
    non-empty [callId] provided every accepted payload of the run had
    one. *)
Theorem stored_call_ids_nonempty `{FieldValidators}
    (clk : nat -> datetime) (rs : list Request) :
  (forall body webhook,
     POST_status body ∈ rs ->
     StatusWebhook.validate body = inr webhook ->
     StatusWebhook.callId webhook <> "") ->
  (forall body webhook,
     POST_transcription body ∈ rs ->
     TranscriptionWebhook.validate body = inr webhook ->
     TranscriptionWebhook.callId webhook <> "") ->
  let w := serve rs (startup clk) in
  Forall (fun e => StatusEvent.callId e <> "") (status_events w) /\
  Forall (fun e => TranscriptionEvent.callId e <> "")
         (transcription_events w).
Proof.
  intros Hs Ht w. subst w.
  apply (serve_invariant (fun w =>
    Forall (fun e => StatusEvent.callId e <> "") (status_events w) /\
    Forall (fun e => TranscriptionEvent.callId e <> "")
           (transcription_events w))).
  - split; constructor.
  - intros r w Hin [Hst Htr].
    destruct (handle_effect r w) as [_ Heff].
    destruct Heff as [Est Etr _|body webhook -> Hvalid Est Etr _
                     |body webhook -> Hvalid Est Etr _|_ Est Etr _];
      rewrite Est, Etr.
    + split; assumption.
    + split; [|assumption]. apply Forall_app. split; [assumption|].
      constructor; [|constructor]. exact (Hs body webhook Hin Hvalid).
    + split; [assumption|]. apply Forall_app. split; [assumption|].
      constructor; [|constructor]. exact (Ht body webhook Hin Hvalid).
    + split; constructor.
Qed.

Lemma stored_call_ids_nonempty_witness :
  let rs := [POST_status (joined_body "c1");
             POST_transcription (audio_body "c1" 1500)] in
  let w := @serve strict rs (startup sample_clock) in
  status_events w = [status_entry (joined_webhook "c1") (sample_clock 0)] /\
  Forall (fun e => StatusEvent.callId e <> "") (status_events w) /\
  Forall (fun e => TranscriptionEvent.callId e <> "")
         (transcription_events w).
Proof.
  intros rs w. split; [vm_compute; reflexivity|].
  apply (@stored_call_ids_nonempty strict sample_clock rs).
  - intros body webhook Hin Hvalid.
    apply elem_of_cons in Hin as [[= ->]|Hin].
    + vm_compute in Hvalid. injection Hvalid as <-. discriminate.
    + apply elem_of_cons in Hin as [Hin|Hin]; [discriminate|].
      apply elem_of_nil in Hin. contradiction.
  - intros body webhook Hin Hvalid.
    apply elem_of_cons in Hin as [Hin|Hin]; [discriminate|].
    apply elem_of_cons in Hin as [[= ->]|Hin].
    + vm_compute in Hvalid. injection Hvalid as <-. discriminate.
    + apply elem_of_nil in Hin. contradiction.
Defined.

(** The claim C8 as stated fails: a status payload whose [callId] is the
    empty string passes validation, and the state reached by receiving
    it holds an event whose [callId] is empty. *)
Lemma empty_call_id_stored :
  let w := @serve strict [POST_status (joined_body "")]
                  (startup sample_clock) in
  @reachable strict w /\
  @StatusWebhook.validate strict (joined_body "") = inr (joined_webhook "") /\
  status_events w = [status_entry (joined_webhook "") (sample_clock 0)] /\
  exists e, e ∈ status_events w /\ StatusEvent.callId e = "".
Proof.
  intros w.
  split; [exists sample_clock, [POST_status (joined_body "")]; reflexivity|].
  split; [vm_compute; reflexivity|].
  assert (Hw : status_events w =
               [status_entry (joined_webhook "") (sample_clock 0)])
    by (vm_compute; reflexivity).
  split; [exact Hw|].
  exists (status_entry (joined_webhook "") (sample_clock 0)).
  split; [rewrite Hw; apply list_elem_of_here|reflexivity].
Qed.

(** ** ISO timestamps sort chronologically *)

Lemma append_empty_r (s : string) : s ++ "" = s.
Proof.
  induction s as [|c s IH]; [reflexivity|].
  change (String c s ++ "") with (String c (s ++ "")). now rewrite IH.
Qed.

Lemma compare_append (a b x y : string) :
  String.length a = String.length b ->
  String.compare (a ++ x) (b ++ y) =
    lexico (String.compare a b) (String.compare x y).
Proof.
  revert b. induction a as [|c a IH]; intros [|d b] Hlen; try discriminate.
  - reflexivity.
  - change (String c a ++ x) with (String c (a ++ x)).
    change (String d b ++ y) with (String d (b ++ y)).
    cbn [String.compare]. injection Hlen as Hlen.
    destruct (Ascii.compare c d); [apply IH, Hlen|reflexivity..].
Qed.

Lemma compare_same (s : string) : String.compare s s = Eq.
Proof.
  induction s as [|c s IH]; [reflexivity|]. cbn [String.compare].
  unfold Ascii.compare. now rewrite N.compare_refl.
Qed.

(** Two texts that start with blocks of the same width, followed by the
    same separator, compare by the blocks and then by the rest. *)
Lemma compare_block (a b sep x y : string) :
  String.length a = String.length b ->
  String.compare (a ++ sep ++ x) (b ++ sep ++ y) =
    lexico (String.compare a b) (String.compare x y).
Proof.
  intros Hlen. rewrite compare_append by exact Hlen.
  rewrite compare_append by reflexivity. now rewrite compare_same.
Qed.

Lemma digit_compare (n m : N) :
  Ascii.compare (digit n) (digit m) = (n mod 10 ?= m mod 10)%N.
Proof.
  unfold digit, Ascii.compare.
  assert (H10 : (10 <> 0)%N) by discriminate.
  pose proof (N.mod_upper_bound n 10 H10) as Hn.
  pose proof (N.mod_upper_bound m 10 H10) as Hm.
  rewrite !N_ascii_embedding by lia.
  destruct (N.compare_spec (n mod 10) (m mod 10)) as [Hr|Hr|Hr].
  - apply N.compare_eq_iff. lia.
  - apply N.compare_lt_iff. lia.
  - apply N.compare_gt_iff. lia.
Qed.

Lemma lexico_base10 (q1 r1 q2 r2 : N) :
  (r1 < 10)%N -> (r2 < 10)%N ->
  lexico (q1 ?= q2)%N (r1 ?= r2)%N = (10 * q1 + r1 ?= 10 * q2 + r2)%N.
Proof.
  intros H1 H2. symmetry.
  destruct (N.compare_spec q1 q2) as [Hq|Hq|Hq]; cbn [lexico].
  - destruct (N.compare_spec r1 r2) as [Hr|Hr|Hr].
    + apply N.compare_eq_iff. lia.
    + apply N.compare_lt_iff. lia.
    + apply N.compare_gt_iff. lia.
  - apply N.compare_lt_iff. lia.
  - apply N.compare_gt_iff. lia.
Qed.

Lemma divmod_compare (n m : N) :
  lexico (n / 10 ?= m / 10)%N (n mod 10 ?= m mod 10)%N = (n ?= m)%N.
Proof.
  assert (H10 : (10 <> 0)%N) by discriminate.
  rewrite lexico_base10 by (apply N.mod_upper_bound, H10).
  now rewrite <- !N.div_mod by exact H10.
Qed.

Lemma zfill_compare (w : nat) (n m : N) :
  (n < 10 ^ N.of_nat w)%N -> (m < 10 ^ N.of_nat w)%N ->
  String.compare (zfill w n) (zfill w m) = (n ?= m)%N.
Proof.
  revert n m. induction w as [|w IH]; intros n m Hn Hm.
  - cbn in Hn, Hm. assert (n = 0%N) as -> by lia.
    assert (m = 0%N) as -> by lia. reflexivity.
  - rewrite Nat2N.inj_succ, N.pow_succ_r' in Hn, Hm.
    cbn [zfill]. rewrite compare_append by now rewrite !zfill_length.
    rewrite IH by (apply N.Div0.div_lt_upper_bound; lia).
    cbn [String.compare]. rewrite digit_compare.
    rewrite <- (divmod_compare n m).
    destruct (n / 10 ?= m / 10)%N; cbn [lexico]; try reflexivity.
    destruct (n mod 10 ?= m mod 10)%N; reflexivity.
Qed.

Lemma days_in_month_le (y m : N) : (days_in_month y m <= 31)%N.
Proof.
  unfold days_in_month.
  repeat match goal with |- context [if ?b then _ else _] => destruct b end;
    lia.
Qed.

Lemma valid_datetime_bounds (d : datetime) :
  valid_datetime d = true ->
  (year d < 10 ^ 4 /\ month d < 10 ^ 2 /\ day d < 10 ^ 2 /\
   hour d < 10 ^ 2 /\ minute d < 10 ^ 2 /\ second d < 10 ^ 2 /\
   microsecond d < 10 ^ 6)%N.
Proof.
  unfold valid_datetime. intros Hvalid.
  repeat match type of Hvalid with
         | (_ && _) = true => apply andb_prop in Hvalid as [Hvalid ?]
         end.
  repeat match goal with
         | H : (_ <=? _)%N = true |- _ => apply N.leb_le in H
         | H : (_ <? _)%N = true |- _ => apply N.ltb_lt in H
         end.
  pose proof (days_in_month_le (year d) (month d)).
  change (10 ^ 4)%N with 10000%N. change (10 ^ 2)%N with 100%N.
  change (10 ^ 6)%N with 1000000%N. lia.
Qed.

(** The fractional part of [isoformat]: absent for a zero microsecond,
    which sorts before every non-zero one. *)
Lemma fraction_compare (u v : N) :
  (u < 10 ^ 6)%N -> (v < 10 ^ 6)%N ->
  String.compare (if (u =? 0)%N then "" else "." ++ zfill 6 u)
                 (if (v =? 0)%N then "" else "." ++ zfill 6 v) =
    (u ?= v)%N.
Proof.
  intros Hu Hv.
  destruct (N.eqb_spec u 0) as [->|Hu0], (N.eqb_spec v 0) as [->|Hv0].
  - reflexivity.
  - symmetry. apply N.compare_lt_iff. lia.
  - symmetry. apply N.compare_gt_iff. lia.
  - rewrite compare_append by reflexivity. rewrite compare_same.
    cbn [lexico]. apply (zfill_compare 6); assumption.
Qed.

(** On naive values, the order of the ISO texts is the order of the
    instants. *)
Lemma isoformat_compare (a b : datetime) :
  valid_datetime a = true -> valid_datetime b = true ->
  is_naive a = true -> is_naive b = true ->
  String.compare (isoformat a) (isoformat b) = datetime_compare a b.
Proof.
  intros Va Vb Na Nb.
  apply valid_datetime_bounds in Va as (Ya & Ma & Da & ha & ma & sa & ua).
  apply valid_datetime_bounds in Vb as (Yb & Mb & Db & hb & mb & sb & ub).
  unfold isoformat, is_naive in *.
  destruct (tzinfo a); [discriminate|]. destruct (tzinfo b); [discriminate|].
  rewrite !append_empty_r.
  rewrite !compare_block by now rewrite !zfill_length.
  rewrite compare_append by now rewrite !zfill_length.
  rewrite (zfill_compare 4), !(zfill_compare 2), fraction_compare
    by assumption.
  reflexivity.
Qed.

Lemma isoformat_monotone (a b : datetime) :
  valid_datetime a = true -> valid_datetime b = true ->
  is_naive a = true -> is_naive b = true ->
  datetime_le a b -> str_le (isoformat a) (isoformat b).
Proof.
  intros Va Vb Na Nb Hle. unfold str_le, String.leb, datetime_le in *.
  rewrite isoformat_compare by assumption.
  destruct (datetime_compare a b); [reflexivity..|contradiction].
Qed.

(** ** Intake times along the lists *)

Lemma ascending_snoc {A : Type} (R : A -> A -> Prop) (l : list A) (y : A) :
  ascending R l -> Forall (fun x => R x y) l -> ascending R (l ++ [y]).
Proof.
  intros Hasc Hall i j a b Hij Hi Hj.
  apply lookup_app_Some in Hj as [Hj|[Hlen Hj]].
  - apply lookup_app_Some in Hi as [Hi|[Hlen _]].
    + exact (Hasc i j a b Hij Hi Hj).
    + apply lookup_lt_Some in Hj. lia.
  - apply list_lookup_singleton_Some in Hj as [Hj <-].
    apply lookup_app_Some in Hi as [Hi|[Hlen' Hi]].
    + rewrite Forall_forall in Hall. apply Hall.
      apply list_elem_of_lookup. eauto.
    + apply list_lookup_singleton_Some in Hi as [Hi _]. lia.
Qed.

Lemma stamped_nil (clk : nat -> datetime) (n : nat) : stamped clk n [].
Proof.
  split; [constructor|]. intros i j a b _ Hi. rewrite lookup_nil in Hi.
  discriminate.
Qed.

Lemma stamped_later (clk : nat -> datetime) (n n' : nat) (l : list string) :
  n <= n' -> stamped clk n l -> stamped clk n' l.
Proof.
  intros Hle [Hall Hasc]. split; [|exact Hasc].
  eapply Forall_impl; [exact Hall|].
  intros s (k & Hk & ->). exists k. split; [lia|reflexivity].
Qed.

Lemma stamped_snoc (clk : nat -> datetime) (n : nat) (l : list string) :
  utc_readings clk -> never_set_back clk ->
  stamped clk n l -> stamped clk (S n) (l ++ [isoformat (clk n)]).
Proof.
  intros Hutc Hmono [Hall Hasc]. split.
  - apply Forall_app. split.
    + eapply Forall_impl; [exact Hall|].
      intros s (k & Hk & ->). exists k. split; [lia|reflexivity].
    + constructor; [|constructor]. exists n. split; [lia|reflexivity].
  - apply ascending_snoc; [exact Hasc|].
    eapply Forall_impl; [exact Hall|].
    intros s (k & Hk & ->).
    destruct (Hutc k) as [Vk Nk], (Hutc n) as [Vn Nn].
    apply isoformat_monotone; try assumption. apply Hmono. lia.
Qed.

(** C9, under the assumption it needs: [received_at] is the ISO text of
    the wall clock read at intake, so along each list the [received_at]
    values never decrease, provided the wall clock is not set back
    between two readings during the process run. *)
Theorem received_at_ascending `{FieldValidators}
    (clk : nat -> datetime) (rs : list Request) :
  utc_readings clk ->
  never_set_back clk ->
  let w := serve rs (startup clk) in
  ascending str_le (StatusEvent.received_at <$> status_events w) /\
  ascending str_le
    (TranscriptionEvent.received_at <$> transcription_events w).
Proof.
  intros Hutc Hmono w.
  assert (Hinv : clock w = clk /\
    stamped clk (ticks w) (StatusEvent.received_at <$> status_events w) /\
    stamped clk (ticks w)
      (TranscriptionEvent.received_at <$> transcription_events w)).
  { subst w.
    apply (serve_invariant (fun w => clock w = clk /\
      stamped clk (ticks w) (StatusEvent.received_at <$> status_events w) /\
      stamped clk (ticks w)
        (TranscriptionEvent.received_at <$> transcription_events w))).
    - split; [reflexivity|]. split; apply stamped_nil.
    - intros r w _ (Hclk & Hst & Htr).
      destruct (handle_effect r w) as [Hclk' Heff].
      split; [congruence|].
      destruct Heff as [Est Etr Hn|body webhook _ _ Est Etr Hn
                       |body webhook _ _ Est Etr Hn|_ Est Etr Hn];
        rewrite Est, Etr.
      + split; eapply stamped_later; eassumption.
      + rewrite Hn, fmap_app, Hclk. cbn [fmap list_fmap status_entry
          StatusEvent.received_at].
        split; [apply stamped_snoc; assumption|].
        eapply stamped_later; [|exact Htr]. lia.
      + rewrite Hn, fmap_app, Hclk. cbn [fmap list_fmap transcription_entry
          TranscriptionEvent.received_at].
        split; [|apply stamped_snoc; assumption].
        eapply stamped_later; [|exact Hst]. lia.
      + split; apply stamped_nil. }
  destruct Hinv as (_ & [_ Hs] & [_ Ht]). split; assumption.
Qed.

Lemma sample_clock_utc : utc_readings sample_clock.
Proof.
  intros i. split; [|reflexivity].
  assert (Hus : (N.min (N.of_nat i) 999999 <? 1000000)%N = true)
    by (apply N.ltb_lt; lia).
  unfold valid_datetime, sample_clock.
  cbn [year month day hour minute second microsecond tzinfo].
  rewrite Hus. reflexivity.
Qed.

Lemma sample_clock_never_set_back : never_set_back sample_clock.
Proof.
  intros i j Hij. unfold datetime_le, datetime_compare, sample_clock.
  cbn [year month day hour minute second microsecond lexico N.compare
       Pos.compare Pos.compare_cont].
  intros Hgt. apply N.compare_gt_iff in Hgt. lia.
Qed.

Lemma received_at_ascending_witness :
  let rs := [POST_status (joined_body "c1"); GET_health;
             POST_status (joined_body "c1")] in
  let w := @serve strict rs (startup sample_clock) in
  utc_readings sample_clock /\
  never_set_back sample_clock /\
  StatusEvent.received_at <$> status_events w =
    ["2024-01-01T12:00:00"; "2024-01-01T12:00:00.000002"] /\
  ascending str_le (StatusEvent.received_at <$> status_events w).
Proof.
  intros rs w.
  split; [exact sample_clock_utc|].
  split; [exact sample_clock_never_set_back|].
  split; [vm_compute; reflexivity|].
  apply (@received_at_ascending strict sample_clock rs
           sample_clock_utc sample_clock_never_set_back).
Defined.

(** The claim C9 as stated fails when the wall clock is set back during
    the run: of two status events received one after the other, the
    first has the later [received_at]. *)
Lemma received_at_descends_when_clock_set_back :
  let rs := [POST_status (joined_body "c1"); POST_status (joined_body "c1")] in
  let w := @serve strict rs (startup stepped_back_clock) in
  @reachable strict w /\
  utc_readings stepped_back_clock /\
  StatusEvent.received_at <$> status_events w =
    ["2024-01-01T12:00:01"; "2024-01-01T12:00:00"] /\
  ~ ascending str_le (StatusEvent.received_at <$> status_events w).
Proof.
  intros rs w.
  split; [exists stepped_back_clock, rs; reflexivity|].
  split; [intros [|i]; split; reflexivity|].
  assert (Hw : StatusEvent.received_at <$> status_events w =
               ["2024-01-01T12:00:01"; "2024-01-01T12:00:00"])
    by (vm_compute; reflexivity).
  split; [exact Hw|].
  rewrite Hw. intros Hasc.
  specialize (Hasc 0 1 _ _ (Nat.lt_0_1) eq_refl eq_refl).
  vm_compute in Hasc. discriminate.
Qed.

(** * Further properties of the handlers *)

(** ** What the handlers log *)

Lemma receive_status_log (webhook : StatusWebhook.t) (w : World) :
  let callId := StatusWebhook.callId webhook in
  let status := StatusWebhook.status webhook in
  let message := StatusWebhook.message webhook in
  new_records w (snd (receive_status webhook w)) =
    (mk_log INFO
       ("📞 Status Update - Call: " ++ callId ++ ", Status: " ++ status) ::
     mk_log INFO ("   Message: " ++ message) ::
     (if String.eqb status "joined" then
        [mk_log INFO ("✅ Bot successfully joined meeting " ++ callId)]
      else if String.eqb status "left" then
        [mk_log INFO ("👋 Bot left meeting " ++ callId)]
      else if String.eqb status "error" then
        [mk_log ERROR ("❌ Error in call " ++ callId ++ ": " ++ message)]
      else []))%list.
Proof.
  destruct webhook as [c s m ts]; destruct w as [st tr lg clk n].
  unfold receive_status, new_records; cbn.
  destruct (String.eqb s "joined"); [|destruct (String.eqb s "left");
    [|destruct (String.eqb s "error")]]; run_handler;
    rewrite <- ?app_assoc; cbn [app]; apply drop_app_length.
Qed.

Lemma receive_transcription_log (webhook : TranscriptionWebhook.t)
    (w : World) :
  new_records w (snd (receive_transcription webhook w)) =
    [mk_log INFO ("🎤 Audio Captured - Call: " ++
                  TranscriptionWebhook.callId webhook);
     mk_log INFO ("   Speaker: " ++ TranscriptionWebhook.speakerName webhook ++
                  " (" ++ TranscriptionWebhook.speakerId webhook ++ ")");
     mk_log INFO ("   File: " ++ TranscriptionWebhook.audioFilePath webhook);
     mk_log INFO ("   Duration: " ++
                  str_of_int (TranscriptionWebhook.durationMs webhook) ++
                  "ms")].
Proof.
  destruct w as [st tr lg clk n].
  unfold receive_transcription, new_records; run_handler.
  rewrite <- !app_assoc; cbn [app]. apply drop_app_length.
Qed.

Lemma clear_events_log (w : World) :
  new_records w (snd (clear_events w)) =
    [mk_log INFO ("🗑️ Cleared " ++ str_of_nat (length (status_events w)) ++
                  " status events and " ++
                  str_of_nat (length (transcription_events w)) ++
                  " transcription events")].
Proof.
  destruct w as [st tr lg clk n].
  unfold clear_events, new_records; run_handler. apply drop_app_length.
Qed.

Lemma new_records_same (w : World) : new_records w w = [].
Proof. unfold new_records. apply drop_all. Qed.

Lemma new_records_app (w w' : World) (emitted : list LogRecord) :
  log w' = (log w ++ emitted)%list -> new_records w w' = emitted.
Proof.
  intros Hw'. unfold new_records. rewrite Hw'. apply drop_app_length.
Qed.

(** Every handler only adds to the log. *)
Lemma handle_log_grows `{FieldValidators} (r : Request) (w : World) :
  log (snd (handle r w)) = (log w ++ new_records w (snd (handle r w)))%list.
Proof.
  assert (Hsame : forall w' : World, log w' = log w ->
            log w' = (log w ++ new_records w w')%list).
  { intros w' Hw'. unfold new_records. rewrite Hw', drop_all, app_nil_r.
    reflexivity. }
  assert (Happ : forall (w' : World) emitted,
            log w' = (log w ++ emitted)%list ->
            log w' = (log w ++ new_records w w')%list).
  { intros w' emitted Hw'. rewrite (new_records_app w w' emitted Hw').
    exact Hw'. }
  destruct r as [|body|body|call_id| |]; cbn [handle].
  - apply Hsame. reflexivity.
  - unfold post_status.
    destruct (StatusWebhook.validate body) as [detail|webhook].
    + apply Hsame. reflexivity.
    + destruct (receive_status_world webhook w) as (emitted & Hrun & _).
      apply (Happ _ emitted). rewrite Hrun. reflexivity.
  - unfold post_transcription.
    destruct (TranscriptionWebhook.validate body) as [detail|webhook].
    + apply Hsame. reflexivity.
    + destruct (receive_transcription_world webhook w) as (emitted & Hrun).
      apply (Happ _ emitted). rewrite Hrun. reflexivity.
  - apply Hsame. rewrite get_events_world. reflexivity.
  - destruct (clear_events_world w) as (emitted & Hrun).
    apply (Happ _ emitted). rewrite Hrun. reflexivity.
  - apply Hsame. reflexivity.
Qed.

(** X1: the transcription handler has no hooks.  Whatever the payload
    holds, it logs four INFO records, none of which is the trace of a
    status hook, and it leaves the status list alone. *)
Theorem receive_transcription_fires_no_hook (webhook : TranscriptionWebhook.t)
    (w : World) :
  let w' := snd (receive_transcription webhook w) in
  log w' = (log w ++ new_records w w')%list /\
  length (new_records w w') = 4 /\
  Forall (fun r => levelname r = INFO) (new_records w w') /\
  hooks_fired (new_records w w') = [] /\
  status_events w' = status_events w.
Proof.
  intros w'. subst w'.
  pose proof (receive_transcription_log webhook w) as Hlog.
  destruct (receive_transcription_world webhook w) as (emitted & Hrun).
  split.
  { rewrite (new_records_app w _ emitted); rewrite Hrun; reflexivity. }
  rewrite Hlog. split; [reflexivity|].
  split; [repeat constructor|].
  split; [vm_compute; reflexivity|].
  rewrite Hrun. reflexivity.
Qed.

(** X2: a request puts an ERROR record in the log exactly when it is a
    status webhook that passes validation and carries the status
    ["error"]; no other route, status or rejected payload logs at that
    level. *)
Theorem error_record_iff_error_status `{FieldValidators} (r : Request)
    (w : World) :
  let w' := snd (handle r w) in
  log w' = (log w ++ new_records w w')%list /\
  ((exists rec, rec ∈ new_records w w' /\ levelname rec = ERROR) <->
  (exists body webhook,
     r = POST_status body /\
     StatusWebhook.validate body = inr webhook /\
     StatusWebhook.status webhook = "error")).
Proof.
  intros w'. subst w'. split; [apply handle_log_grows|].
  assert (Hnone : forall l : list LogRecord,
            Forall (fun rec => levelname rec = INFO) l ->
            ~ exists rec, rec ∈ l /\ levelname rec = ERROR).
  { intros l Hall (rec & Hin & Herr). rewrite Forall_forall in Hall.
    specialize (Hall rec Hin). congruence. }
  destruct r as [|body|body|call_id| |]; cbn [handle].
  - split; [intros Hex; exfalso|intros (b & wh & [=] & _)].
    revert Hex. apply Hnone. rewrite new_records_same. constructor.
  - unfold post_status.
    destruct (StatusWebhook.validate body) as [detail|webhook] eqn:Hvalid.
    + split; [intros Hex; exfalso|intros (b & wh & [= <-] & Hv & _);
        congruence].
      revert Hex. apply Hnone. cbn [snd mret M_ret].
      rewrite new_records_same. constructor.
    + rewrite receive_status_log.
      destruct (String.eqb_spec (StatusWebhook.status webhook) "joined")
        as [Hj|Hj];
      [|destruct (String.eqb_spec (StatusWebhook.status webhook) "left")
          as [Hl|Hl];
        [|destruct (String.eqb_spec (StatusWebhook.status webhook) "error")
            as [He|He]]].
      * split; [intros Hex; exfalso|
                intros (b & wh & [= <-] & Hv & Hs); congruence].
        revert Hex. apply Hnone. repeat constructor.
      * split; [intros Hex; exfalso|
                intros (b & wh & [= <-] & Hv & Hs); congruence].
        revert Hex. apply Hnone. repeat constructor.
      * split; [intros _; exists body, webhook; auto|].
        intros _. eexists.
        split; [do 2 apply list_elem_of_further; apply list_elem_of_here|].
        reflexivity.
      * split; [intros Hex; exfalso|
                intros (b & wh & [= <-] & Hv & Hs); congruence].
        revert Hex. apply Hnone. repeat constructor.
  - split; [intros Hex; exfalso|intros (b & wh & [=] & _)].
    revert Hex. apply Hnone. unfold post_transcription.
    destruct (TranscriptionWebhook.validate body) as [detail|webhook].
    + cbn [snd mret M_ret]. rewrite new_records_same. constructor.
    + rewrite receive_transcription_log. repeat constructor.
  - split; [intros Hex; exfalso|intros (b & wh & [=] & _)].
    revert Hex. apply Hnone. rewrite get_events_world, new_records_same.
    constructor.
  - split; [intros Hex; exfalso|intros (b & wh & [=] & _)].
    revert Hex. apply Hnone. rewrite clear_events_log. repeat constructor.
  - split; [intros Hex; exfalso|intros (b & wh & [=] & _)].
    revert Hex. apply Hnone. rewrite health_world.
    unfold new_records. cbn [log]. rewrite drop_all. constructor.
Qed.

(** ** What a run keeps *)

Lemma serve_app `{FieldValidators} (rs1 rs2 : list Request) (w : World) :
  serve (rs1 ++ rs2) w = serve rs2 (serve rs1 w).
Proof.
  revert w. induction rs1 as [|r rs1 IH]; intros w; [reflexivity|].
  cbn [app serve]. apply IH.
Qed.

(** Apart from a clear, a request adds at most one entry, at the end of
    one list: the one its accepted webhook belongs to. *)
Lemma handle_appends `{FieldValidators} (r : Request) (w : World) :
  r <> DELETE_events ->
  exists ns nt,
    status_events (snd (handle r w)) = (status_events w ++ ns)%list /\
    transcription_events (snd (handle r w)) =
      (transcription_events w ++ nt)%list /\
    length ns = (if accepted_status r then 1 else 0) /\
    length nt = (if accepted_transcription r then 1 else 0).
Proof.
  intros Hr.
  destruct r as [|body|body|call_id| |]; cbn [handle]; try contradiction.
  - exists [], []. rewrite !app_nil_r. repeat split.
  - unfold post_status, accepted_status, accepted_transcription.
    destruct (StatusWebhook.validate body) as [detail|webhook].
    + exists [], []. rewrite !app_nil_r. repeat split.
    + destruct (receive_status_world webhook w) as (emitted & -> & _).
      eexists [_], []. rewrite !app_nil_r. repeat split.
  - unfold post_transcription, accepted_status, accepted_transcription.
    destruct (TranscriptionWebhook.validate body) as [detail|webhook].
    + exists [], []. rewrite !app_nil_r. repeat split.
    + destruct (receive_transcription_world webhook w) as (emitted & ->).
      eexists [], [_]. rewrite !app_nil_r. repeat split.
  - rewrite get_events_world. exists [], []. rewrite !app_nil_r.
    repeat split.
  - rewrite health_world. exists [], []. rewrite !app_nil_r. repeat split.
Qed.

(** X4: stored events are append-only.  As long as no clear is
    requested, whatever a list holds stays in it, unchanged and in the
    same positions; later events only come after. *)
Theorem stores_append_only `{FieldValidators} (rs : list Request)
    (w : World) :
  DELETE_events ∉ rs ->
  status_events w `prefix_of` status_events (serve rs w) /\
  transcription_events w `prefix_of` transcription_events (serve rs w).
Proof.
  revert w. induction rs as [|r rs IH]; intros w Hno; cbn [serve].
  - split; reflexivity.
  - apply not_elem_of_cons in Hno as [Hr Hno].
    destruct (handle_appends r w) as (ns & nt & Hs & Ht & _);
      [congruence|].
    destruct (IH (snd (handle r w)) Hno) as [IHs IHt].
    split; (etransitivity; [|eassumption]).
    + rewrite Hs. apply prefix_app_r. reflexivity.
    + rewrite Ht. apply prefix_app_r. reflexivity.
Qed.

Lemma stores_append_only_witness :
  let w := snd (receive_status (joined_webhook "c1") (startup sample_clock)) in
  let rs := [GET_events None; POST_status (joined_body "c2"); GET_health] in
  (DELETE_events ∉ rs) /\
  (status_events w `prefix_of` status_events (@serve strict rs w)).
Proof.
  intros w rs.
  assert (Hno : DELETE_events ∉ rs).
  { unfold rs. rewrite !not_elem_of_cons. repeat split; try discriminate.
    apply not_elem_of_nil. }
  split; [exact Hno|].
  exact (proj1 (@stores_append_only strict rs w Hno)).
Defined.

(** X5: no accepted webhook is lost or stored twice.  Over a run
    without a clear, each list grows by exactly the number of webhooks
    of its kind that passed validation; and after a clear, each list
    holds exactly as many entries as webhooks of its kind were accepted
    since. *)
Theorem stored_counts `{FieldValidators} (before after : list Request)
    (w : World) :
  DELETE_events ∉ after ->
  let accepted_s := length (List.filter accepted_status after) in
  let accepted_t := length (List.filter accepted_transcription after) in
  length (status_events (serve after w)) =
    length (status_events w) + accepted_s /\
  length (transcription_events (serve after w)) =
    length (transcription_events w) + accepted_t /\
  length (status_events (serve (before ++ DELETE_events :: after) w)) =
    accepted_s /\
  length (transcription_events
            (serve (before ++ DELETE_events :: after) w)) = accepted_t.
Proof.
  intros Hno.
  assert (Hgrow : forall w0,
    length (status_events (serve after w0)) =
      length (status_events w0) + length (List.filter accepted_status after) /\
    length (transcription_events (serve after w0)) =
      length (transcription_events w0) +
      length (List.filter accepted_transcription after)).
  { clear w. induction after as [|r rs IH]; intros w0; cbn [serve List.filter].
    - cbn. lia.
    - apply not_elem_of_cons in Hno as [Hr Hno].
      destruct (handle_appends r w0) as (ns & nt & Hs & Ht & Hns & Hnt);
        [congruence|].
      destruct (IH Hno (snd (handle r w0))) as [IHs IHt].
      rewrite IHs, IHt, Hs, Ht, !length_app, Hns, Hnt.
      destruct (accepted_status r), (accepted_transcription r); cbn; lia. }
  cbv zeta. destruct (Hgrow w) as [Hs Ht].
  split; [exact Hs|]. split; [exact Ht|].
  rewrite serve_app. cbn [serve handle].
  destruct (clear_events_world (serve before w)) as (emitted & ->).
  cbn [snd]. destruct (Hgrow (mk_world [] [] (log (serve before w) ++ emitted)
    (clock (serve before w)) (ticks (serve before w)))) as [Hs' Ht'].
  cbn [status_events transcription_events length] in Hs', Ht'.
  split; assumption.
Qed.

Lemma stored_counts_witness :
  let before := [POST_status (joined_body "c0")] in
  let after := [POST_status (joined_body "c1");
                POST_status (delete "callId" (joined_body "c1"));
                POST_transcription (audio_body "c1" 1500);
                POST_status (joined_body "c1")] in
  (DELETE_events ∉ after) /\
  length (List.filter (@accepted_status strict) after) = 2 /\
  length (status_events
            (@serve strict (before ++ DELETE_events :: after)
               (startup sample_clock))) = 2.
Proof.
  intros before after.
  assert (Hno : DELETE_events ∉ after).
  { unfold after. rewrite !not_elem_of_cons. repeat split; try discriminate.
    apply not_elem_of_nil. }
  split; [exact Hno|].
  destruct (@stored_counts strict before after (startup sample_clock) Hno)
    as (_ & _ & Hs & _).
  split; [vm_compute; reflexivity|].
  rewrite Hs. vm_compute. reflexivity.
Defined.

(** X6: reading is free of side effects on the store.  A run made only
    of GET requests (root, events with any [call_id], health) and of
    webhooks that fail validation leaves both lists and the log exactly
    as they were. *)
Theorem reads_and_rejections_store_nothing `{FieldValidators}
    (rs : list Request) (w : World) :
  Forall (fun r => stores_nothing r = true) rs ->
  status_events (serve rs w) = status_events w /\
  transcription_events (serve rs w) = transcription_events w /\
  log (serve rs w) = log w.
Proof.
  revert w. induction rs as [|r rs IH]; intros w Hall; cbn [serve].
  - repeat split.
  - apply Forall_cons in Hall as [Hr Hall].
    destruct (IH (snd (handle r w)) Hall) as (-> & -> & ->). clear IH Hall.
    destruct r as [|body|body|call_id| |]; cbn [handle];
      cbn [stores_nothing accepted_status accepted_transcription] in Hr.
    + repeat split.
    + unfold post_status.
      destruct (StatusWebhook.validate body); [repeat split|discriminate].
    + unfold post_transcription.
      destruct (TranscriptionWebhook.validate body);
        [repeat split|discriminate].
    + rewrite get_events_world. repeat split.
    + discriminate.
    + rewrite health_world. repeat split.
Qed.

Lemma reads_and_rejections_store_nothing_witness :
  let w := snd (receive_status (joined_webhook "c1") (startup sample_clock)) in
  let rs := [GET_health; GET_events (Some ""); GET_root;
             POST_status (delete "status" (joined_body "c2"));
             GET_events (Some "c1")] in
  Forall (fun r => @stores_nothing strict r = true) rs /\
  status_events (@serve strict rs w) = status_events w /\
  log (@serve strict rs w) = log w.
Proof.
  intros w rs.
  assert (Hall : Forall (fun r => @stores_nothing strict r = true) rs).
  { unfold rs. repeat constructor. }
  split; [exact Hall|].
  destruct (@reads_and_rejections_store_nothing strict rs w Hall)
    as (Hs & _ & Hl).
  split; assumption.
Defined.

(** ** Receiving and reading back through the summary *)

Lemma last_items_snoc {A : Type} (n : nat) (l : list A) (x : A) :
  last_items (S n) (l ++ [x]) = (last_items n l ++ [x])%list.
Proof.
  unfold last_items. rewrite length_app. cbn [length].
  replace (length l + 1 - S n) with (length l - n) by lia.
  apply drop_app_le. lia.
Qed.

(** X7: whatever its [callId], empty included, an event that has just
    been received is the last item of its list in [get_events()]: the
    summary then shows the nine newest earlier entries followed by the
    new one, the total of that list is one more, and the other list is
    reported as before, by its last ten entries. *)
Theorem received_event_ends_summary (w : World) :
  let st := status_events w in
  let tr := transcription_events w in
  (forall webhook,
     let entry := status_entry webhook (clock w (ticks w)) in
     fst (get_events None (snd (receive_status webhook w))) =
       EventsSummary (S (length st)) (length tr)
         (drop (length st - 9) st ++ [entry])%list
         (drop (length tr - 10) tr)) /\
  (forall webhook,
     let entry := transcription_entry webhook (clock w (ticks w)) in
     fst (get_events None (snd (receive_transcription webhook w))) =
       EventsSummary (length st) (S (length tr))
         (drop (length st - 10) st)
         (drop (length tr - 9) tr ++ [entry])%list).
Proof.
  intros st tr. split; intros webhook entry.
  - destruct (receive_status_world webhook w) as (emitted & -> & _).
    rewrite get_events_summary.
    cbn [snd status_events transcription_events].
    rewrite last_items_snoc, length_app. cbn [length].
    unfold last_items. fold st tr. f_equal. lia.
  - destruct (receive_transcription_world webhook w) as (emitted & ->).
    rewrite get_events_summary.
    cbn [snd status_events transcription_events].
    rewrite last_items_snoc, length_app. cbn [length].
    unfold last_items. fold st tr. f_equal. lia.
Qed.

(** ** Calls do not interfere *)

(** X8: receiving an event of one call changes nothing in the per-call
    view of any other call (the view taken with a non-empty
    [call_id]). *)
Theorem other_calls_unaffected (w : World) (c : string) :
  c <> "" ->
  (forall webhook,
     StatusWebhook.callId webhook <> c ->
     fst (get_events (Some c) (snd (receive_status webhook w))) =
     fst (get_events (Some c) w)) /\
  (forall webhook,
     TranscriptionWebhook.callId webhook <> c ->
     fst (get_events (Some c) (snd (receive_transcription webhook w))) =
     fst (get_events (Some c) w)).
Proof.
  intros Hc. split; intros webhook Hother.
  - destruct (receive_status_world webhook w) as (emitted & -> & _).
    rewrite !get_events_by_call by exact Hc.
    cbn [fst snd status_events transcription_events].
    unfold status_of_call at 1.
    rewrite filter_app, filter_cons_False, filter_nil, app_nil_r
      by exact Hother.
    reflexivity.
  - destruct (receive_transcription_world webhook w) as (emitted & ->).
    rewrite !get_events_by_call by exact Hc.
    cbn [fst snd status_events transcription_events].
    unfold transcription_of_call at 1.
    rewrite filter_app, filter_cons_False, filter_nil, app_nil_r
      by exact Hother.
    reflexivity.
Qed.

Lemma other_calls_unaffected_witness :
  let w := snd (receive_status (joined_webhook "c1") (startup sample_clock)) in
  "c1" <> "" /\
  StatusWebhook.callId (joined_webhook "c2") <> "c1" /\
  fst (get_events (Some "c1") (snd (receive_status (joined_webhook "c2") w))) =
    EventsByCall "c1"
      [status_entry (joined_webhook "c1") (sample_clock 0)] [].
Proof.
  intros w.
  assert (Hc : "c1" <> "") by discriminate.
  assert (Hother : StatusWebhook.callId (joined_webhook "c2") <> "c1")
    by discriminate.
  split; [exact Hc|]. split; [exact Hother|].
  rewrite (proj1 (other_calls_unaffected w "c1" Hc)
             (joined_webhook "c2") Hother).
  vm_compute. reflexivity.
Defined.

Lemma filter_all {A : Type} (P : A -> Prop) `{forall x, Decision (P x)}
    (l : list A) :
  Forall P l -> filter P l = l.
Proof.
  induction 1 as [|x l Hx _ IH]; [reflexivity|].
  rewrite filter_cons_True by exact Hx. now rewrite IH.
Qed.

(** X9: the per-call view is not windowed and does not deduplicate.
    After a fresh process has received any number of status webhooks of
    one call, [get_events] with that [call_id] returns an entry for
    every one of them, in arrival order. *)
Theorem per_call_view_keeps_everything (clk : nat -> datetime)
    (ws : list StatusWebhook.t) (c : string) :
  c <> "" ->
  Forall (fun webhook => StatusWebhook.callId webhook = c) ws ->
  exists ss,
    fst (get_events (Some c) (receive_statuses ws (startup clk))) =
      EventsByCall c ss [] /\
    ss = imap (fun i webhook => status_entry webhook (clk i)) ws /\
    length ss = length ws.
Proof.
  intros Hc Hall.
  destruct (receive_statuses_world ws (startup clk)) as (Hs & Ht & _ & _).
  cbn [startup status_events transcription_events clock ticks app Nat.add]
    in Hs, Ht.
  eexists. split; [|split; [reflexivity|apply length_imap]].
  rewrite get_events_by_call by exact Hc. cbn [fst].
  rewrite Hs, Ht. unfold status_of_call, transcription_of_call.
  rewrite filter_nil. f_equal.
  apply filter_all, Forall_forall. intros e He.
  apply elem_of_lookup_imap in He as (i & webhook & -> & Hi).
  rewrite Forall_forall in Hall. apply Hall.
  apply list_elem_of_lookup. eauto.
Qed.

Lemma per_call_view_keeps_everything_witness :
  let ws := replicate 11 (joined_webhook "c1") in
  "c1" <> "" /\
  Forall (fun webhook => StatusWebhook.callId webhook = "c1") ws /\
  exists ss,
    fst (get_events (Some "c1") (receive_statuses ws (startup sample_clock))) =
      EventsByCall "c1" ss [] /\
    length ss = 11.
Proof.
  intros ws.
  assert (Hc : "c1" <> "") by discriminate.
  assert (Hall : Forall (fun webhook => StatusWebhook.callId webhook = "c1")
                        ws) by (unfold ws; repeat constructor).
  split; [exact Hc|]. split; [exact Hall|].
  destruct (per_call_view_keeps_everything sample_clock ws "c1" Hc Hall)
    as (ss & Hget & _ & Hlen).
  exists ss. split; [exact Hget|exact Hlen].
Defined.

(** ** Clearing, again *)

(** X10: a clear forgets every event and nothing else.  Clearing twice
    reports zero the second time; after a clear every per-call view is
    empty; and the next status webhook is stored alone, stamped with the
    clock reading it would have had without the clear. *)
Theorem clear_events_forgets_events (w : World) :
  let w1 := snd (clear_events w) in
  fst (clear_events w1) = Cleared true 0 0 /\
  (forall c, c <> "" -> fst (get_events (Some c) w1) = EventsByCall c [] []) /\
  (forall webhook,
     fst (get_events None (snd (receive_status webhook w1))) =
       EventsSummary 1 0 [status_entry webhook (clock w (ticks w))] []).
Proof.
  intros w1. subst w1.
  destruct (clear_events_world w) as (emitted & ->). cbn [snd].
  split; [reflexivity|]. split.
  - intros c Hc. rewrite get_events_by_call by exact Hc. reflexivity.
  - intros webhook.
    match goal with |- context [receive_status webhook ?w0] =>
      destruct (receive_status_world webhook w0) as (emitted' & -> & _)
    end.
    reflexivity.
Qed.

(** ** More on validation *)

Lemma validate_field_shape {A : Type} (v : json -> option A) (name : string)
    (body : gmap string json) :
  (exists a, validate_field v name body = inr a) \/
  (exists t, validate_field v name body = inl [mk_error name t]).
Proof.
  unfold validate_field.
  destruct (body !! name) as [j|]; [destruct (v j)|]; eauto.
Qed.

(** Decides [sublist] goals between explicit lists. *)
Ltac sublist_of_fields :=
  repeat first [ apply sublist_nil | apply sublist_skip | apply sublist_cons ].

Lemma status_validate_inl `{FieldValidators} (body : gmap string json)
    (detail : ValidationError) :
  StatusWebhook.validate body = inl detail ->
  detail <> [] /\ sublist (loc <$> detail) StatusWebhook.fields.
Proof.
  unfold StatusWebhook.validate, StatusWebhook.fields.
  destruct (validate_field_shape validate_str "callId" body)
    as [[? ->]|[? ->]],
    (validate_field_shape validate_str "status" body) as [[? ->]|[? ->]],
    (validate_field_shape validate_str "message" body) as [[? ->]|[? ->]],
    (validate_field_shape validate_datetime "timestamp" body)
      as [[? ->]|[? ->]];
    intros [= <-]; (split; [discriminate|]); cbn; sublist_of_fields.
Qed.

Lemma transcription_validate_inl `{FieldValidators}
    (body : gmap string json) (detail : ValidationError) :
  TranscriptionWebhook.validate body = inl detail ->
  detail <> [] /\ sublist (loc <$> detail) TranscriptionWebhook.fields.
Proof.
  unfold TranscriptionWebhook.validate, TranscriptionWebhook.fields.
  destruct (validate_field_shape validate_str "callId" body)
    as [[? ->]|[? ->]],
    (validate_field_shape validate_str "audioFilePath" body)
      as [[? ->]|[? ->]],
    (validate_field_shape validate_datetime "timestamp" body)
      as [[? ->]|[? ->]],
    (validate_field_shape validate_str "speakerId" body) as [[? ->]|[? ->]],
    (validate_field_shape validate_str "speakerName" body)
      as [[? ->]|[? ->]],
    (validate_field_shape validate_int "durationMs" body) as [[? ->]|[? ->]];
    intros [= <-]; (split; [discriminate|]); cbn; sublist_of_fields.
Qed.

(** X11, for a request body that is a JSON object: whenever a webhook
    route answers such a body with validation errors, for whatever
    reason, the world is exactly as before, the error list is not empty,
    and it names declared fields only, each at most once and in
    declaration order. *)
Theorem rejection_reports_declared_fields `{FieldValidators}
    (body : gmap string json) (w : World) (detail : ValidationError) :
  (fst (post_status body w) = Unprocessable detail ->
   snd (post_status body w) = w /\
   detail <> [] /\
   sublist (loc <$> detail) StatusWebhook.fields) /\
  (fst (post_transcription body w) = Unprocessable detail ->
   snd (post_transcription body w) = w /\
   detail <> [] /\
   sublist (loc <$> detail) TranscriptionWebhook.fields).
Proof.
  split.
  - unfold post_status.
    destruct (StatusWebhook.validate body) as [detail'|webhook] eqn:Hvalid.
    + intros [= <-]. split; [reflexivity|].
      exact (status_validate_inl body _ Hvalid).
    + destruct (receive_status_world webhook w) as (emitted & -> & _).
      discriminate.
  - unfold post_transcription.
    destruct (TranscriptionWebhook.validate body) as [detail'|webhook]
      eqn:Hvalid.
    + intros [= <-]. split; [reflexivity|].
      exact (transcription_validate_inl body _ Hvalid).
    + destruct (receive_transcription_world webhook w) as (emitted & ->).
      discriminate.
Qed.

(** X13: keys that are not fields of the model are ignored.  Adding
    any such key to a body, with any value, changes neither the answer
    nor the effect of the webhook routes. *)
Theorem unknown_keys_ignored `{FieldValidators} (body : gmap string json)
    (key : string) (j : json) (w : World) :
  (key ∉ StatusWebhook.fields ->
   post_status (<[key:=j]> body) w = post_status body w) /\
  (key ∉ TranscriptionWebhook.fields ->
   post_transcription (<[key:=j]> body) w = post_transcription body w).
Proof.
  split; intros Hkey.
  - unfold StatusWebhook.fields in Hkey.
    rewrite !not_elem_of_cons in Hkey.
    destruct Hkey as (K1 & K2 & K3 & K4 & _).
    unfold post_status, StatusWebhook.validate.
    rewrite !validate_field_insert_ne by assumption. reflexivity.
  - unfold TranscriptionWebhook.fields in Hkey.
    rewrite !not_elem_of_cons in Hkey.
    destruct Hkey as (K1 & K2 & K3 & K4 & K5 & K6 & _).
    unfold post_transcription, TranscriptionWebhook.validate.
    rewrite !validate_field_insert_ne by assumption. reflexivity.
Qed.

Lemma unknown_keys_ignored_witness :
  let body := <["scenarioId" := JInt 7]> (joined_body "c1") in
  ("scenarioId" ∉ StatusWebhook.fields) /\
  fst (@post_status strict body (startup sample_clock)) =
    StatusAck true "c1".
Proof.
  intros body.
  assert (Hkey : "scenarioId" ∉ StatusWebhook.fields).
  { unfold StatusWebhook.fields. rewrite !not_elem_of_cons.
    repeat split; try discriminate. apply not_elem_of_nil. }
  split; [exact Hkey|].
  unfold body.
  rewrite (proj1 (@unknown_keys_ignored strict (joined_body "c1")
                    "scenarioId" (JInt 7) (startup sample_clock)) Hkey).
  vm_compute. reflexivity.
Defined.

(** ** Where stored events come from *)

(** X14: every stored event was created by a webhook of the run that
    passed validation, and holds that webhook's fields and a reading of
    the clock; nothing else ever enters the lists. *)
Theorem stored_events_come_from_webhooks `{FieldValidators}
    (clk : nat -> datetime) (rs : list Request) :
  let w := serve rs (startup clk) in
  Forall (fun e => exists body webhook k,
            POST_status body ∈ rs /\
            StatusWebhook.validate body = inr webhook /\
            e = status_entry webhook (clk k))
         (status_events w) /\
  Forall (fun e => exists body webhook k,
            POST_transcription body ∈ rs /\
            TranscriptionWebhook.validate body = inr webhook /\
            e = transcription_entry webhook (clk k))
         (transcription_events w).
Proof.
  intros w. subst w.
  set (Ps := fun e : StatusEvent.t => exists body webhook k,
         POST_status body ∈ rs /\
         StatusWebhook.validate body = inr webhook /\
         e = status_entry webhook (clk k)).
  set (Pt := fun e : TranscriptionEvent.t => exists body webhook k,
         POST_transcription body ∈ rs /\
         TranscriptionWebhook.validate body = inr webhook /\
         e = transcription_entry webhook (clk k)).
  assert (Hinv : clock (serve rs (startup clk)) = clk /\
                 Forall Ps (status_events (serve rs (startup clk))) /\
                 Forall Pt (transcription_events (serve rs (startup clk)))).
  { apply (serve_invariant (fun w => clock w = clk /\
             Forall Ps (status_events w) /\
             Forall Pt (transcription_events w))).
    - split; [reflexivity|]. split; constructor.
    - intros r w Hin (Hclk & Hs & Ht).
      destruct (handle_effect r w) as [Hclk' Heff].
      split; [congruence|].
      destruct Heff as [Est Etr _|body webhook -> Hvalid Est Etr _
                       |body webhook -> Hvalid Est Etr _|_ Est Etr _];
        rewrite Est, Etr.
      + split; assumption.
      + split; [|assumption]. apply Forall_app. split; [assumption|].
        constructor; [|constructor].
        exists body, webhook, (ticks w). rewrite Hclk. auto.
      + split; [assumption|]. apply Forall_app. split; [assumption|].
        constructor; [|constructor].
        exists body, webhook, (ticks w). rewrite Hclk. auto.
      + split; constructor. }
  destruct Hinv as (_ & Hs & Ht). split; assumption.
Qed.

(** ** Sorting by [received_at] *)

(** X15: the [received_at] texts of two stored events compare, as
    strings, exactly as the instants at which the two were received;
    in particular they are equal only for equal instants.  So sorting
    events by [received_at] sorts them by intake time. *)
Theorem received_at_order_is_intake_order
    (first second : StatusWebhook.t) (a b : datetime) :
  valid_datetime a = true -> is_naive a = true ->
  valid_datetime b = true -> is_naive b = true ->
  String.compare (StatusEvent.received_at (status_entry first a))
                 (StatusEvent.received_at (status_entry second b)) =
    datetime_compare a b /\
  (StatusEvent.received_at (status_entry first a) =
   StatusEvent.received_at (status_entry second b) ->
   datetime_compare a b = Eq).
Proof.
  intros Va Na Vb Nb. cbn [status_entry StatusEvent.received_at].
  split; [apply isoformat_compare; assumption|].
  intros Heq. rewrite <- (isoformat_compare a b) by assumption.
  rewrite Heq. apply compare_same.
Qed.

Lemma received_at_order_is_intake_order_witness :
  valid_datetime (sample_clock 3) = true /\
  is_naive (sample_clock 3) = true /\
  valid_datetime (sample_clock 0) = true /\
  is_naive (sample_clock 0) = true /\
  String.compare
    (StatusEvent.received_at
       (status_entry (joined_webhook "c1") (sample_clock 3)))
    (StatusEvent.received_at
       (status_entry (joined_webhook "c2") (sample_clock 0))) = Gt.
Proof.
  assert (V3 : valid_datetime (sample_clock 3) = true) by reflexivity.
  assert (N3 : is_naive (sample_clock 3) = true) by reflexivity.
  assert (V0 : valid_datetime (sample_clock 0) = true) by reflexivity.
  assert (N0 : is_naive (sample_clock 0) = true) by reflexivity.
  repeat (split; [assumption|]).
  rewrite (proj1 (received_at_order_is_intake_order
                    (joined_webhook "c1") (joined_webhook "c2")
                    (sample_clock 3) (sample_clock 0) V3 N3 V0 N0)).
  reflexivity.
Defined.
